(** * named_arrays: named shapes, type priority, indexing dispatch and
      linear interpolation

    A shallow embedding of [named_arrays/core.py] (and of the two small
    modules [_matrices/matrices_spectral.py] and
    [_scalars/scalar_named_array_functions.py]) together with the
    properties the specification states about them.

    Conventions.
    - A Python [dict] is an insertion-ordered association list with
      unique keys ([dict V]); assignment to an existing key keeps the
      key's position, assignment to a new key appends.
    - A Python [int] is a [Z]; a binary64 number is a primitive float,
      with the IEEE specification that the library gives it.
    - A call that may raise returns a [res]: [Ok v] or [Raise e]. *)

From Stdlib Require Import List String ZArith QArith Qround Lia Bool.
From Stdlib Require Import PrimFloat Uint63.
Import ListNotations.

Set Implicit Arguments.

Local Open Scope string_scope.
Local Open Scope Z_scope.
Local Open Scope list_scope.

(* ================================================================== *)
(** * Python dictionaries *)
(* ================================================================== *)

Definition dict (V : Type) : Type := list (string * V).

Section Dict.
Context {V : Type}.

(** [d.keys()] *)
Definition keys (d : dict V) : list string := map fst d.

(** [d[k]], [None] when [k not in d] *)
Fixpoint dict_get (k : string) (d : dict V) : option V :=
  match d with
  | [] => None
  | (k', v) :: d' => if String.eqb k k' then Some v else dict_get k d'
  end.

(** [d[k] = v] *)
Fixpoint dict_set (k : string) (v : V) (d : dict V) : dict V :=
  match d with
  | [] => [(k, v)]
  | (k', v') :: d' =>
      if String.eqb k k' then (k, v) :: d' else (k', v') :: dict_set k v d'
  end.

(** [{k: v for (k, v) in items}], built by successive assignment *)
Definition dict_of_items (items : list (string * V)) : dict V :=
  fold_left (fun acc kv => dict_set (fst kv) (snd kv) acc) items [].

(** The invariant of a Python dictionary: no key occurs twice. *)
Definition unique_keys (d : dict V) : Prop := NoDup (keys d).
End Dict.

(* ================================================================== *)
(** * Exceptions and results *)
(* ================================================================== *)

(** The messages of the exceptions raised in [core.py], with the values
    their f-strings interpolate, and the index error of the array
    library underneath. *)
Inductive message : Type :=
  | ShapesNotCompatible (shapes : list (dict Z))
      (* f'shapes {shapes} are not compatible' *)
  | ItemNotSupported (type_self : string)
      (* f"item not supported by array with type {type(self)}" *)
  | ItemEmpty
      (* 'Item must contain at least one key' *)
  | IndexOutOfBounds (index size : Z)
      (* an index outside [-size, size) *)
  | FloatNaNToInteger
      (* 'cannot convert float NaN to integer', from [int(x)] *)
  | FloatInfinityToInteger
      (* 'cannot convert float infinity to integer', from [int(x)] *)
  | NotSquare
      (* the dimension error of section 7 of the specification *).

Inductive exn : Type :=
  | ValueError (m : message)
  | TypeError (m : message)
  | IndexError (m : message)
  | KeyError (k : string)
  | OverflowError (m : message)
  | DimensionError (m : message).

Inductive res (A : Type) : Type :=
  | Ok (a : A)
  | Raise (e : exn).
Arguments Ok {A} a.
Arguments Raise {A} e.

Definition bind {A B : Type} (r : res A) (f : A -> res B) : res B :=
  match r with
  | Ok a => f a
  | Raise e => Raise e
  end.

Notation "x <- r ;; k" := (bind r (fun x => k))
  (at level 61, r at next level, right associativity).

(** A [for] loop whose body may raise: the state is threaded through the
    elements in order and the first exception leaves the loop. *)
Fixpoint for_each {A S : Type} (body : S -> A -> res S) (l : list A) (s : S)
  : res S :=
  match l with
  | [] => Ok s
  | x :: l' => s' <- body s x ;; for_each body l' s'
  end.

(* ================================================================== *)
(** * [broadcast_shapes] (core.py, lines 113-129) *)
(* ================================================================== *)

Definition Shape : Type := dict Z.

(** The body of the inner loop, for one [axis] of [shape] with
    [size = shape[axis]]. *)
Definition merge_axis (shapes : list Shape) (result : Shape)
    (entry : string * Z) : res Shape :=
  let (axis, size) := entry in
  match dict_get axis result with
  | Some r =>
      if r =? size then Ok result
      else if size =? 1 then Ok result
      else if r =? 1 then Ok (dict_set axis size result)
      else Raise (ValueError (ShapesNotCompatible shapes))
  | None => Ok (dict_set axis size result)
  end.

(** The inner loop: [for axis in reversed(shape): ...]. *)
Definition merge_shape (shapes : list Shape) (result : Shape) (shape : Shape)
  : res Shape :=
  for_each (merge_axis shapes) (rev shape) result.

(** [for shape in shapes: ...], then the final comprehension
    [{axis: result[axis] for axis in reversed(result)}]. *)
Definition broadcast_shapes (shapes : list Shape) : res Shape :=
  result <- for_each (merge_shape shapes) shapes [] ;;
  Ok (dict_of_items (rev result)).

(** The reading of the specification (section 3): two sizes are
    broadcast-compatible when they are equal or either of them is 1. *)
Definition compatible (a b : Z) : Prop := a = b \/ a = 1 \/ b = 1.

(** The reading of the specification (section 8): [a] if [a == b], else
    the size that is not 1. *)
Definition broadcast_size (a b : Z) : Z :=
  if a =? b then a else if a =? 1 then b else a.

(* ================================================================== *)
(** * [type_array] (core.py, lines 98-110) *)
(* ================================================================== *)

(** The operands that are not named arrays: [bool | int | float |
    complex | str | np.ndarray | u.Quantity]. *)
Inductive plain : Type :=
  | PyBool (b : bool)
  | PyInt (z : Z)
  | PyFloat (q : Q)
  | PyComplex (re im : Q)
  | PyStr (s : string)
  | NdArray (data : list Q)
  | Quantity (value : Q) (unit : string).

(** An array class, with the attribute that ranks it (an [int], by the
    docstring of [AbstractArray.__named_array_priority__]). *)
Record pyclass : Type := {
  __name__ : string;
  __named_array_priority__ : Z;
}.

Section TypeArray.
(** The instances of [AbstractArray]. *)
Variable Array : Type.
(** [value.type_array], an explicit array class *)
Variable type_array_of : Array -> pyclass.

Inductive operand : Type :=
  | Plain (v : plain)
  | Named (a : Array).

(** [isinstance(value, AbstractArray)] *)
Definition is_named (value : operand) : bool :=
  match value with
  | Named _ => true
  | Plain _ => false
  end.

(** One turn of the loop over [values], on the pair
    [(cls, priority_max)]. *)
Definition type_array_step (state : option pyclass * Z) (value : operand)
  : option pyclass * Z :=
  let (cls, priority_max) := state in
  match value with
  | Named a =>
      let cls_tmp := type_array_of a in
      let priority_tmp := __named_array_priority__ cls_tmp in
      if priority_tmp >? priority_max then (Some cls_tmp, priority_tmp)
      else (cls, priority_max)
  | Plain _ => (cls, priority_max)
  end.

(** [cls = None; priority_max = 0; for value in values: ...; return cls] *)
Definition type_array (values : list operand) : option pyclass :=
  fst (fold_left type_array_step values (None, 0)).

(** [value.type_array.__named_array_priority__] *)
Definition priority (a : Array) : Z :=
  __named_array_priority__ (type_array_of a).

(** The reading of the specification: [a] is the winner among the
    operands [values] when it is a named array of the highest priority
    among the named arrays, and the first one that attains it. *)
Definition first_of_highest_priority (values : list operand) (a : Array)
  : Prop :=
  exists before after,
    values = before ++ Named a :: after /\
    (forall b, In (Named b) before -> priority b < priority a) /\
    (forall b, In (Named b) after -> priority b <= priority a).
End TypeArray.

Arguments Plain {Array} v.
Arguments Named {Array} a.

(* ================================================================== *)
(** * Indexing: [AbstractArray.__getitem__] (core.py, lines 434-470) *)
(* ================================================================== *)

Section Items.
Variable Array : Type.

(** The values of an axis-keyed item: [int | slice | AbstractArray]. *)
Inductive subitem : Type :=
  | SubInt (i : Z)
  | SubSlice (start stop step : option Z)
  | SubArray (a : Array).

(** [item: dict[str, int | slice | AbstractArray] | AbstractArray];
    [ItemOther] stands for an object that is neither. *)
Inductive item : Type :=
  | ItemDict (d : dict subitem)
  | ItemArray (a : Array)
  | ItemOther.
End Items.

Arguments SubInt {Array} i.
Arguments SubSlice {Array} start stop step.
Arguments SubArray {Array} a.
Arguments ItemDict {Array} d.
Arguments ItemArray {Array} a.
Arguments ItemOther {Array}.

(** What a handler answers: [NotImplemented], a value, or an exception. *)
Inductive handled (Value : Type) : Type :=
  | NotImplemented
  | Returned (v : Value)
  | Raised (e : exn).
Arguments NotImplemented {Value}.
Arguments Returned {Value} v.
Arguments Raised {Value} e.

(** [None] for [NotImplemented]; otherwise what [__getitem__] returns
    or raises on such an answer. *)
Definition answer {Value : Type} (h : handled Value) : option (res Value) :=
  match h with
  | NotImplemented => None
  | Returned v => Some (Ok v)
  | Raised e => Some (Raise e)
  end.

(** The abstract members of [AbstractArray] that indexing and
    interpolation rely on.  [Array] are the named arrays, [Value] what
    indexing them returns. *)
Class AbstractArray (Array Value : Type) : Type := {
  (** [type(self)], as the error message prints it *)
  type_name : Array -> string;
  (** [self.shape] *)
  shape_of : Array -> Shape;
  (** [self._getitem(item)] *)
  _getitem : Array -> item Array -> handled Value;
  (** [self._getitem_reversed(array, item)] *)
  _getitem_reversed : Array -> Array -> item Array -> handled Value;
  (** the [shape] of an array that indexing returned *)
  value_shape : Value -> Shape;
  (** [named_arrays.scalars.ScalarArrayRange(start, stop, axis=axis)] *)
  ScalarArrayRange : Z -> Z -> string -> Array;
}.

Section Indexing.
Context {Array Value : Type} `{AbstractArray Array Value}.

(** The handler invocations, in the order they happen. *)
Inductive call : Type :=
  | Call_getitem (self : Array) (it : item Array)
  | Call_getitem_reversed (self array : Array) (it : item Array).

(** [for ax in item: if isinstance(item[ax], AbstractArray): ...] over
    the entries of the dictionary that are still to be visited; [None]
    when the loop ends without returning. *)
Fixpoint getitem_reversed_loop (self : Array) (it : item Array)
    (entries : dict (subitem Array)) : list call * option (res Value) :=
  match entries with
  | [] => ([], None)
  | (ax, SubArray b) :: rest =>
      let result := _getitem_reversed b self it in
      match answer result with
      | Some r => ([Call_getitem_reversed b self it], Some r)
      | None =>
          let (calls, r) := getitem_reversed_loop self it rest in
          (Call_getitem_reversed b self it :: calls, r)
      end
  | _ :: rest => getitem_reversed_loop self it rest
  end.

(** [self[item]], with the handler invocations it made. *)
Definition __getitem__ (self : Array) (it : item Array)
  : list call * res Value :=
  let not_supported := Raise (ValueError (ItemNotSupported (type_name self))) in
  let result := _getitem self it in
  match answer result with
  | Some r => ([Call_getitem self it], r)
  | None =>
      match it with
      | ItemDict d =>
          let (calls, r) := getitem_reversed_loop self it d in
          (Call_getitem self it :: calls,
           match r with Some r => r | None => not_supported end)
      | ItemArray b =>
          let result := _getitem_reversed b self it in
          ([Call_getitem self it; Call_getitem_reversed b self it],
           match answer result with Some r => r | None => not_supported end)
      | ItemOther => ([Call_getitem self it], not_supported)
      end
  end.

(** [self[item]] *)
Definition getitem (self : Array) (it : item Array) : res Value :=
  snd (__getitem__ self it).

(** The reading of the specification: the named arrays whose reversed
    handler may be asked, in item order. *)
Definition reversed_handlers (it : item Array) : list Array :=
  match it with
  | ItemDict d =>
      flat_map (fun entry => match snd entry with
                             | SubArray b => [b]
                             | _ => []
                             end) d
  | ItemArray b => [b]
  | ItemOther => []
  end.

(** [indices(shape)] (core.py, lines 157-159) *)
Definition indices (s : Shape) : dict Array :=
  map (fun entry => (fst entry, ScalarArrayRange 0 (snd entry) (fst entry))) s.
End Indexing.

(* ================================================================== *)
(** * Linear interpolation (core.py, lines 619-670) *)
(* ================================================================== *)

(** What the code asks of a coordinate [x] that has no axes of its own
    ([x.shape] is empty), and of one element of a coordinate array. *)
Class Coordinate (X : Type) : Type := {
  (** [x < 0] *)
  lt_zero : X -> bool;
  (** [x >= m], which is also [m <= x], for an [int] [m] *)
  ge_int : X -> Z -> bool;
  (** [int(x)], which raises on a value that is no number *)
  int_of : X -> res Z;
  (** [np.floor(x).astype(int)] *)
  floor_int : X -> Z;
  (** [x - x0] for an [int] [x0] *)
  sub_int : X -> Z -> X;
}.

(** The arithmetic of [y0 + (x - x0) * (y1 - y0)]. *)
Class Arithmetic (X Value : Type) : Type := {
  v_add : Value -> Value -> Value;
  v_sub : Value -> Value -> Value;
  v_mul : X -> Value -> Value;
}.

Section Interpolation.
Context {Array Value X : Type}
        `{AbstractArray Array Value} `{Coordinate X} `{Arithmetic X Value}.

(** [self.shape[axis]] *)
Definition shape_getitem (self : Array) (axis : string) : res Z :=
  match dict_get axis (shape_of self) with
  | Some n => Ok n
  | None => Raise (KeyError axis)
  end.

(** [x0] when [x.shape] is empty (lines 640-646). *)
Definition lower_neighbor (self : Array) (axis : string) (x : X) : res Z :=
  if lt_zero x then Ok 0
  else
    n <- shape_getitem self axis ;;
    if ge_int x (n - 1) then Ok (n - 2) else int_of x.

(** One element of [x0] when [x] is an array (lines 632-638), for an
    axis of size [n]: the floor, overwritten under [where_below] and
    then under [where_above]. *)
Definition lower_neighbor_masked (n : Z) (x : X) : Z :=
  let where_below := lt_zero x in
  let where_above := ge_int x (n - 1) in
  let x0 := floor_int x in
  let x0 := if where_below then 0 else x0 in
  let x0 := if where_above then n - 2 else x0 in
  x0.

(** [_interp_linear_recursive], for coordinates without axes of their
    own (the branch of line 640).  [item] is consumed from its first key
    on.  For a coordinate array (the branch of line 632) the lower
    neighbours are computed element by element, as
    [lower_neighbor_masked] does for one element; indexing by arrays and
    the arithmetic of arrays are in [named_arrays/_scalars/scalars.py],
    outside this development. *)
Fixpoint _interp_linear_recursive (self : Array) (item : dict X)
    (item_base : dict (subitem Array)) : res Value :=
  match item with
  | [] => Raise (ValueError ItemEmpty)
  | (axis, x) :: item' =>
      x0 <- lower_neighbor self axis x ;;
      let x1 := x0 + 1 in
      let item_base_0 := dict_set axis (SubInt x0) item_base in
      let item_base_1 := dict_set axis (SubInt x1) item_base in
      y0 <- match item' with
            | _ :: _ => _interp_linear_recursive self item' item_base_0
            | [] => getitem self (ItemDict item_base_0)
            end ;;
      y1 <- match item' with
            | _ :: _ => _interp_linear_recursive self item' item_base_1
            | [] => getitem self (ItemDict item_base_1)
            end ;;
      Ok (v_add y0 (v_mul (sub_int x x0) (v_sub y1 y0)))
  end.

(** [{ax: 0 for ax in item}] *)
Definition origin_item (item : dict X) : dict (subitem Array) :=
  map (fun entry => (fst entry, SubInt 0)) item.

(** [interp_linear]: [item_base] is [self[{ax: 0 for ax in item}].indices]. *)
Definition interp_linear (self : Array) (item : dict X) : res Value :=
  origin <- getitem self (ItemDict (origin_item item)) ;;
  _interp_linear_recursive self item
    (map (fun entry => (fst entry, SubArray (snd entry)))
         (indices (value_shape origin))).
End Interpolation.

(** ** Coordinates and values *)

(** Integer coordinates: the value of a numpy integer or of a named
    integer array without axes (a builtin [int] has no [shape]). *)
#[export] Instance Coordinate_Z : Coordinate Z := {
  lt_zero x := x <? 0;
  ge_int x m := m <=? x;
  int_of x := Ok x;
  floor_int x := x;
  sub_int x x0 := x - x0;
}.

#[export] Instance Arithmetic_Z : Arithmetic Z Z := {
  v_add := Z.add;
  v_sub := Z.sub;
  v_mul := Z.mul;
}.

(** Exact fractions: the coordinates that are numbers, taken with their
    exact value and exact differences; [Coordinate_float] below has the
    binary64 coordinates of the code, with its infinities and NaN.
    [int(x)] truncates toward zero. *)
#[export] Instance Coordinate_Q : Coordinate Q := {
  lt_zero x := negb (Qle_bool 0 x);
  ge_int x m := Qle_bool (inject_Z m) x;
  int_of x := Ok (Z.quot (Qnum x) (Zpos (Qden x)));
  floor_int x := Qfloor x;
  sub_int x x0 := (x - inject_Z x0)%Q;
}.

#[export] Instance Arithmetic_Q : Arithmetic Q Q := {
  v_add := Qplus;
  v_sub := Qminus;
  v_mul := Qmult;
}.

(** [float(k)] for an [int] below [2^63] in absolute value. *)
Definition float_of_int (k : Z) : float :=
  match k with
  | Z0 => 0%float
  | Zpos _ => PrimFloat.of_uint63 (Uint63.of_Z k)
  | Zneg p => PrimFloat.opp (PrimFloat.of_uint63 (Uint63.of_Z (Zpos p)))
  end.

(** Binary64 data under an integer coordinate: [(x - x0)] is an [int],
    converted when it meets the [float64] difference. *)
#[export] Instance Arithmetic_float : Arithmetic Z float := {
  v_add := PrimFloat.add;
  v_sub := PrimFloat.sub;
  v_mul k d := PrimFloat.mul (float_of_int k) d;
}.

(** ** An explicit array over one axis *)

Section ExplicitArray.
Variable V : Type.

(** Modelled from the spec: the explicit scalar array and the array range
    of [named_arrays/_scalars/scalars.py], which is not under src/,
    reduced to what interpolation along a single axis asks of them: an
    array holds its elements along one named axis, and an integer index
    for that axis selects one element (section 4.3).  The index follows
    the rule of the array library underneath: [i] is valid when
    [-n <= i < n], a negative index counts from the end.  Any other
    item is declined with [NotImplemented]. *)
Inductive array1 : Type :=
  | Explicit (axis : string) (ndarray : list V)
  | ArrayRange (start stop : Z) (axis : string).

Definition array1_shape (self : array1) : Shape :=
  match self with
  | Explicit axis ndarray => [(axis, Z.of_nat (List.length ndarray))]
  | ArrayRange start stop axis => [(axis, stop - start)]
  end.

Definition ndarray_getitem (ndarray : list V) (i : Z) : handled V :=
  let n := Z.of_nat (List.length ndarray) in
  let j := if i <? 0 then i + n else i in
  if (0 <=? j) && (j <? n) then
    match nth_error ndarray (Z.to_nat j) with
    | Some v => Returned v
    | None => Raised (IndexError (IndexOutOfBounds i n))
    end
  else Raised (IndexError (IndexOutOfBounds i n)).

Definition array1_getitem (self : array1) (it : item array1) : handled V :=
  match self, it with
  | Explicit axis ndarray, ItemDict [(ax, SubInt i)] =>
      if String.eqb ax axis then ndarray_getitem ndarray i
      else NotImplemented
  | _, _ => NotImplemented
  end.

#[export] Instance AbstractArray_array1 : AbstractArray array1 V := {
  type_name self := match self with
                    | Explicit _ _ => "ScalarArray"
                    | ArrayRange _ _ _ => "ScalarArrayRange"
                    end;
  shape_of := array1_shape;
  _getitem := array1_getitem;
  _getitem_reversed _ _ _ := NotImplemented;
  value_shape _ := [];
  ScalarArrayRange := ArrayRange;
}.
End ExplicitArray.

Arguments ArrayRange {V} start stop axis.

(** ** Arrays that index other arrays *)

(** A host that declines every item, an index array that knows how to
    index any host (it answers with its own tag), and an index array
    that declines too: the three roles of the double dispatch that
    section 4.3 of the specification describes. *)
Inductive role : Type :=
  | Host
  | Selector (tag : Z)
  | Bystander.

#[export] Instance AbstractArray_role : AbstractArray role Z := {
  type_name self := match self with
                    | Host => "Host"
                    | Selector _ => "Selector"
                    | Bystander => "Bystander"
                    end;
  shape_of _ := [];
  _getitem _ _ := NotImplemented;
  _getitem_reversed self _ _ := match self with
                                | Selector tag => Returned tag
                                | _ => NotImplemented
                                end;
  value_shape _ := [];
  ScalarArrayRange _ _ _ := Bystander;
}.

(* ================================================================== *)
(** * Seeded random samples
      (core.py, lines 830-853; scalar_named_array_functions.py) *)
(* ================================================================== *)

Section Random.
(** The state of the ambient generators: Python's [random] module and
    the global generator behind [np.random.uniform]. *)
Variable Ambient : Type.
(** [random.randint(a, b)] *)
Variable randint : Z -> Z -> Ambient -> Z * Ambient.

(** Raw values, aligned buffers, units and seeded generators of the
    numeric collaborators. *)
Variables Raw Buffer Unit Generator : Type.
(** [np.random.uniform(low, high, size)] *)
Variable np_random_uniform :
  Buffer -> Buffer -> list Z -> Ambient -> Buffer * Ambient.
(** [np.random.default_rng(seed)] for an [int] seed *)
Variable default_rng : Z -> Generator.
(** [generator.uniform(low, high, size)] on a generator just made *)
Variable generator_uniform : Generator -> Buffer -> Buffer -> list Z -> Buffer.

(** Scalar arrays, and named arrays of another kind. *)
Variables ScalarArray OtherArray : Type.
(** [na.ScalarArray(value)] *)
Variable scalar_array : Raw -> ScalarArray.
(** [array.shape] *)
Variable scalar_shape : ScalarArray -> Shape.
(** [array.ndarray_aligned(shape)] *)
Variable ndarray_aligned : ScalarArray -> Shape -> res Buffer.
(** The block on units (lines 51-64 of the function): the two buffers
    as plain values of one unit, and that unit. *)
Variable common_unit : Buffer -> Buffer -> res (Buffer * Buffer * option Unit).
(** [na.ScalarArray(ndarray=value << unit, axes=axes)] *)
Variable scalar_array_of_buffer : Buffer -> option Unit -> list string -> ScalarArray.

(** An argument [start] or [stop]. *)
Inductive bound : Type :=
  | BoundNone
  | BoundRaw (v : Raw)
  | BoundScalar (a : ScalarArray)
  | BoundOther (a : OtherArray).

Inductive sample : Type :=
  | SampleNotImplemented
  | SampleNone
  | SampleArray (a : ScalarArray).

(** The normalisation of [start], and of [stop]: the scalar array to go
    on with, or what the function returns at once. *)
Definition normalize_bound (b : bound) : ScalarArray + sample :=
  match b with
  | BoundScalar a => inl a
  | BoundOther _ => inr SampleNotImplemented
  | BoundNone => inr SampleNone
  | BoundRaw v => inl (scalar_array v)
  end.

(** [random_uniform(start, stop, shape_random, seed)] *)
Definition random_uniform (start stop : bound) (shape_random : option Shape)
    (seed : option Z) (g : Ambient) : res sample * Ambient :=
  match normalize_bound start with
  | inr out => (Ok out, g)
  | inl start =>
  match normalize_bound stop with
  | inr out => (Ok out, g)
  | inl stop =>
      let shape_random := match shape_random with
                          | Some s => s
                          | None => []
                          end in
      match
        shape <- broadcast_shapes
                   [scalar_shape start; scalar_shape stop; shape_random] ;;
        start <- ndarray_aligned start shape ;;
        stop <- ndarray_aligned stop shape ;;
        bounds <- common_unit start stop ;;
        Ok (shape, bounds)
      with
      | Raise e => (Raise e, g)
      | Ok (shape, (low, high, unit)) =>
          let size := map snd shape in
          let (value, g') :=
            match seed with
            | None => np_random_uniform low high size g
            | Some seed => (generator_uniform (default_rng seed) low high size, g)
            end in
          (Ok (SampleArray (scalar_array_of_buffer value unit (keys shape))), g')
      end
  end
  end.

(** An object of a random-carrying class: the dataclass fields other
    than the seed, [parameters], and the [seed] property that
    [AbstractRandomMixin] declares with its setter.  The classes of
    core.py that inherit the mixin are [AbstractRandomSample], with
    [AbstractUniformRandomSample] and [AbstractNormalRandomSample], and
    [AbstractStratifiedRandomSpace]; the concrete classes differ in
    their parameters [P]. *)
Record random_object (P : Type) : Type := {
  parameters : P;
  seed : option Z;
}.

(** [AbstractRandomMixin.__post_init__] *)
Definition __post_init__ {P : Type} (self : random_object P) (g : Ambient)
  : random_object P * Ambient :=
  match seed self with
  | None =>
      let (drawn, g') := randint 0 (10 ^ 12) g in
      ({| parameters := parameters self; seed := Some drawn |}, g')
  | Some _ => (self, g)
  end.

(** Construction: the [__init__] that [dataclasses.dataclass] generates
    stores the fields and calls [__post_init__]. *)
Definition construct {P : Type} (parameters : P) (seed : option Z)
    (g : Ambient) : random_object P * Ambient :=
  __post_init__ {| parameters := parameters; seed := seed |} g.

(** [np.random.default_rng(seed=None)]: a generator from fresh entropy. *)
Variable default_rng_entropy : Ambient -> Generator * Ambient.

(** [AbstractRandomMixin._rng]: [np.random.default_rng(seed=self.seed)],
    a new generator at each access. *)
Definition _rng {P : Type} (self : random_object P) (g : Ambient)
  : Generator * Ambient :=
  match seed self with
  | Some seed => (default_rng seed, g)
  | None => default_rng_entropy g
  end.

(** Modelled from the spec: the [array] property of the concrete random
    classes ([named_arrays/_scalars/scalars.py] and the vector modules
    are not under src/).  Section 4.5: materialization draws from a
    seeded generator.  The generator is [self._rng], and [draw] is the
    draw of the kind of sample (uniform, normal, stratified) over its
    parameters. *)
Definition array {P R : Type} (draw : P -> Generator -> R)
    (self : random_object P) (g : Ambient) : R * Ambient :=
  let (rng, g') := _rng self g in
  (draw (parameters self) rng, g').

(** Modelled from the spec: the [array] property of the concrete uniform
    random sample, whose draw is under src/: [random_uniform] on the
    stored [start], [stop], [shape_random] and [seed]. *)
Definition uniform_array
    (self : random_object (bound * bound * option Shape)) (g : Ambient)
  : res sample * Ambient :=
  let '(start, stop, shape_random) := parameters self in
  random_uniform start stop shape_random (seed self) g.
End Random.

(* ================================================================== *)
(** * Spectral matrices (matrices_spectral.py, lines 38-63) *)
(* ================================================================== *)

Section SpectralMatrix.
(** The instances of [AbstractSpectralMatrixArray], the scalars and the
    matrices; [None] is the absent value of an [option]. *)
Variables SpectralMatrixArray Scalar Matrix : Type.
(** [self.is_square], which only the disabled lines mention *)
Variable is_square : SpectralMatrixArray -> bool.

(** [determinant]: every line but [return] is a comment. *)
Definition determinant (self : SpectralMatrixArray) : res (option Scalar) :=
  Ok None.

(** [inverse]: every line but [return] is a comment. *)
Definition inverse (self : SpectralMatrixArray) : res (option Matrix) :=
  Ok None.
End SpectralMatrix.

From Stdlib Require Import Permutation Lqa.

(* ================================================================== *)
(** * Further functions of [core.py] *)
(* ================================================================== *)

(** The reading of the specification: a shape [S] can be broadcast to
    the shape [R] when every axis of [S] is an axis of [R] and its size
    is the size in [R], or 1. *)
Definition broadcastable_to (S R : Shape) : Prop :=
  forall k s, dict_get k S = Some s ->
    exists r, dict_get k R = Some r /\ (s = r \/ s = 1).

(** The reading of the specification: any two of the shapes agree, up
    to sizes of 1, on every axis they share. *)
Definition pairwise_compatible (shapes : list Shape) : Prop :=
  forall S T, In S shapes -> In T shapes ->
  forall k s t, dict_get k S = Some s -> dict_get k T = Some t ->
                compatible s t.

(** [k in d] *)
Definition dict_contains {V : Type} (k : string) (d : dict V) : bool :=
  match dict_get k d with
  | Some _ => true
  | None => false
  end.

(** [d.pop(k)] on a dictionary that holds [k]: the entry is removed, the
    others keep their order. *)
Fixpoint dict_pop {V : Type} (k : string) (d : dict V) : dict V :=
  match d with
  | [] => []
  | (k', v) :: d' =>
      if String.eqb k k' then d' else (k', v) :: dict_pop k d'
  end.

Section ShapeBroadcasted.
Context {Array Value : Type} `{AbstractArray Array Value}.

End ShapeBroadcasted.

(** ** [ndindex] (core.py, lines 137-154) *)

(** [range(n)] *)
Definition py_range (n : Z) : list Z := map Z.of_nat (seq 0 (Z.to_nat n)).

(** The multi-indices of [np.ndindex] over [dims], the last index varying
    fastest. *)
Fixpoint multi_indices (dims : list Z) : list (list Z) :=
  match dims with
  | [] => [[]]
  | n :: dims' =>
      flat_map (fun i => map (cons i) (multi_indices dims')) (py_range n)
  end.

(** [np.ndindex] of the array library, over [dims]: [None] stands for the
    [ValueError] it raises on a negative dimension. *)
Definition np_ndindex (dims : list Z) : option (list (list Z)) :=
  if forallb (fun n => 0 <=? n) dims then Some (multi_indices dims) else None.

(** The argument [axis_ignored: None | str | Sequence[str]]. *)
Inductive axis_arg : Type :=
  | AxisNone
  | AxisStr (axis : string)
  | AxisSeq (axes : list string).

(** [None] becomes the empty list and a [str] the list of that one
    axis. *)
Definition axis_list (axis_ignored : axis_arg) : list string :=
  match axis_ignored with
  | AxisNone => []
  | AxisStr axis => [axis]
  | AxisSeq axes => axes
  end.

(** [ndindex(shape, axis_ignored)]: the dictionaries the generator
    yields, in order. *)
Definition ndindex (shape : Shape) (axis_ignored : axis_arg)
  : option (list (dict Z)) :=
  let axis_ignored := axis_list axis_ignored in
  let shape :=
    fold_left (fun shape axis =>
                 if dict_contains axis shape then dict_pop axis shape
                 else shape)
              axis_ignored shape in
  let shape_tuple := map snd shape in
  option_map (map (fun index => dict_of_items (combine (keys shape) index)))
             (np_ndindex shape_tuple).

(** The reading of the specification: the axes of [shape] that are not
    ignored, and the coordinates that lie within a shape. *)
Definition axes_kept (shape : Shape) (axis_ignored : list string) : Shape :=
  filter (fun entry => negb (existsb (String.eqb (fst entry)) axis_ignored))
         shape.

Definition within (index : dict Z) (shape : Shape) : Prop :=
  Forall2 (fun coordinate entry =>
             fst coordinate = fst entry
             /\ 0 <= snd coordinate < snd entry) index shape.

(** The number of elements of a shape: the product of its sizes. *)
Definition shape_size (shape : Shape) : Z :=
  fold_right Z.mul 1 (map snd shape).

(** ** [flatten_axes] (core.py, lines 162-163) *)

(** ['*'.join(axes)] *)
Definition flatten_axes (axes : list string) : string :=
  String.concat "*" axes.

(** A string that is empty or begins with the separator. *)
Definition at_separator (s : string) : Prop :=
  s = "" \/ exists t, s = String.append "*" t.

(** The character ['*'] does not occur in [s]. *)
Fixpoint star_free (s : string) : bool :=
  match s with
  | EmptyString => true
  | String c s' => negb (String.eqb (String c EmptyString) "*") && star_free s'
  end.

(** ** Interpolation over two axes *)

(** [y0 + w * (y1 - y0)], the last line of [_interp_linear_recursive]. *)
Definition lerp {X Value : Type} `{Arithmetic X Value}
    (y0 : Value) (w : X) (y1 : Value) : Value :=
  v_add y0 (v_mul w (v_sub y1 y0)).

Section ExplicitArray2.
Variable V : Type.

(** Modelled from the spec: an explicit array over two named axes, the
    rows along [axis0] and the elements of a row along [axis1], and the
    array range, with the integer indexing of section 4.3 for an item
    that gives an integer for each of the two axes and nothing else,
    under the same bounds rule as [ndarray_getitem].  Any other item is
    declined with [NotImplemented].
    ([named_arrays/_scalars/scalars.py] is not under src/.) *)
Inductive array2 : Type :=
  | Explicit2 (axis0 axis1 : string) (rows : list (list V))
  | ArrayRange2 (start stop : Z) (axis : string).

Definition array2_shape (self : array2) : Shape :=
  match self with
  | Explicit2 axis0 axis1 rows =>
      [(axis0, Z.of_nat (List.length rows));
       (axis1, Z.of_nat (List.length (hd [] rows)))]
  | ArrayRange2 start stop axis => [(axis, stop - start)]
  end.

Definition array2_getitem (self : array2) (it : item array2) : handled V :=
  match self, it with
  | Explicit2 axis0 axis1 rows, ItemDict d =>
      match dict_get axis0 d, dict_get axis1 d, List.length d with
      | Some (SubInt i), Some (SubInt j), 2%nat =>
          match ndarray_getitem rows i with
          | Returned row => ndarray_getitem row j
          | Raised e => Raised e
          | NotImplemented => NotImplemented
          end
      | _, _, _ => NotImplemented
      end
  | _, _ => NotImplemented
  end.

#[export] Instance AbstractArray_array2 : AbstractArray array2 V := {
  type_name self := match self with
                    | Explicit2 _ _ _ => "ScalarArray"
                    | ArrayRange2 _ _ _ => "ScalarArrayRange"
                    end;
  shape_of := array2_shape;
  _getitem := array2_getitem;
  _getitem_reversed _ _ _ := NotImplemented;
  value_shape _ := [];
  ScalarArrayRange := ArrayRange2;
}.
End ExplicitArray2.

Arguments ArrayRange2 {V} start stop axis.

(* ================================================================== *)
(** * Ranges (core.py, lines 856-904) *)
(* ================================================================== *)

Section Ranges.
Context {X Value : Type} {arithmetic : Arithmetic X Value}.

(** [AbstractRangeMixin.range]: [self.stop - self.start]. *)
Definition range (start stop : Value) : Value := v_sub stop start.

(** [AbstractSymmetricRangeMixin.start]: [self.center - self.width]. *)
Definition symmetric_start (center width : Value) : Value :=
  v_sub center width.

(** [AbstractSymmetricRangeMixin.stop]: [self.center + self.width]. *)
Definition symmetric_stop (center width : Value) : Value :=
  v_add center width.

(** [range] of an object whose [start] and [stop] are those of
    [AbstractSymmetricRangeMixin]. *)
Definition symmetric_range (center width : Value) : Value :=
  range (symmetric_start center width) (symmetric_stop center width).

End Ranges.

From Stdlib Require Import Floats.

(* ================================================================== *)
(** * Binary64 coordinates and values *)
(* ================================================================== *)

(** [x] is a NaN. *)
Definition float_is_nan (x : float) : bool :=
  match Prim2SF x with
  | S754_nan => true
  | _ => false
  end.


(** [floor(x)] of a number [x = (-1)^s * m * 2^e], as an integer: a
    shift by [e] of the signed mantissa, which rounds toward minus
    infinity when [e] is negative. *)
Definition float_floor (x : float) : option Z :=
  match Prim2SF x with
  | S754_zero _ => Some 0
  | S754_finite s m e => Some (Z.shiftl (cond_Zopp s (Zpos m)) e)
  | _ => None
  end.

(** [x] is the integer [k], exactly. *)
Definition float_is_int (x : float) (k : Z) : bool :=
  match Prim2SF x with
  | S754_zero _ => k =? 0
  | S754_finite s m e =>
      if 0 <=? e then cond_Zopp s (Zpos m) * 2 ^ e =? k
      else cond_Zopp s (Zpos m) =? k * 2 ^ (- e)
  | _ => false
  end.

(** [int(x)] for a binary64 [x]: the integer part of a number, toward
    zero (the shift of the mantissa, with the sign put back); an error
    for an infinity or a NaN. *)
Definition float_int (x : float) : res Z :=
  match Prim2SF x with
  | S754_nan => Raise (ValueError FloatNaNToInteger)
  | S754_infinity _ => Raise (OverflowError FloatInfinityToInteger)
  | S754_zero _ => Ok 0
  | S754_finite s m e => Ok (cond_Zopp s (Z.shiftl (Zpos m) e))
  end.

(** Binary64 coordinates.  An [int] that meets a binary64 in a
    comparison or a difference is converted first.  [astype(int)] of a
    value that is no number, or whose floor is outside the 64-bit
    integers, is undefined in C and depends on the platform:
    [astype_int_invalid] is what it gives. *)
Definition Coordinate_float (astype_int_invalid : float -> Z)
  : Coordinate float := {|
  lt_zero x := PrimFloat.ltb x 0;
  ge_int x m := PrimFloat.leb (float_of_int m) x;
  int_of := float_int;
  floor_int x :=
    match float_floor x with
    | Some k => if (- 2 ^ 63 <=? k) && (k <? 2 ^ 63) then k
                else astype_int_invalid x
    | None => astype_int_invalid x
    end;
  sub_int x x0 := PrimFloat.sub x (float_of_int x0);
|}.

(** Binary64 data under a binary64 coordinate. *)
#[export] Instance Arithmetic_float_float : Arithmetic float float := {
  v_add := PrimFloat.add;
  v_sub := PrimFloat.sub;
  v_mul := PrimFloat.mul;
}.

(* ================================================================== *)
(** * The samples that interpolation reads *)
(* ================================================================== *)

Section InterpolationReads.
Context {Array Value X : Type} `{AbstractArray Array Value}.

(** [index] gives each axis of [item], in the order of [item], an
    integer that is at least 0 and below the size of the array along
    that axis. *)
Definition within_axes (self : Array) (item : dict X) (index : list Z)
  : Prop :=
  Forall2 (fun (entry : string * X) (j : Z) =>
             exists n, dict_get (fst entry) (shape_of self) = Some n
                       /\ 0 <= j < n)
          item index.

(** [{**item_base, axis: j, ...}], one assignment for each axis of
    [item] with its integer of [index], in the order of [item]. *)
Definition item_at (item : dict X) (index : list Z)
    (item_base : dict (subitem Array)) : dict (subitem Array) :=
  fold_left (fun base (entry : (string * X) * Z) =>
               dict_set (fst (fst entry)) (SubInt (snd entry)) base)
            (combine item index) item_base.
End InterpolationReads.

(* ================================================================== *)
(** * Matrices *)
(* ================================================================== *)

Section Matrix.
Variable Scalar : Type.
(** The determinant and the inverse of a square matrix, as the numeric
    collaborator computes them. *)
Variable det : list (list Scalar) -> Scalar.
Variable inv : list (list Scalar) -> list (list Scalar).

(** Modelled from the spec: the matrices of
    [named_arrays/_matrices/matrices.py], which is not under src/.
    Sections 3 and 4.4: a matrix has rows, each of them a vector of
    components, and it is square when the row count equals the
    component count. *)
Definition matrix : Type := list (list Scalar).

Definition is_square (m : matrix) : bool :=
  forallb (fun row => Nat.eqb (List.length row) (List.length m)) m.

(** Modelled from the spec: [determinant] and [inverse] of these
    matrices.  Sections 4.4 and 7: they are defined only for square
    matrices, and both raise a dimension error for a matrix that is not
    square. *)
Definition matrix_determinant (m : matrix) : res Scalar :=
  if is_square m then Ok (det m) else Raise (DimensionError NotSquare).

Definition matrix_inverse (m : matrix) : res matrix :=
  if is_square m then Ok (inv m) else Raise (DimensionError NotSquare).
End Matrix.

(* ================================================================== *)
(** * Facts about dictionaries *)
(* ================================================================== *)

Unset Implicit Arguments.

Section DictFacts.
Context {V : Type}.
Implicit Types (d : dict V) (k : string) (v : V).

Lemma dict_get_None k d : dict_get k d = None <-> ~ In k (keys d).
Proof.
  induction d as [|[k' v'] d IH]; simpl.
  - tauto.
  - destruct (String.eqb_spec k k') as [->|Hne].
    + split; [discriminate | intros Hn; exfalso; apply Hn; now left].
    + rewrite IH. split.
      * intros Hn [Heq|Hin]; [congruence | auto].
      * intros Hn Hin. apply Hn. now right.
Qed.

Lemma dict_get_In k v d : dict_get k d = Some v -> In (k, v) d.
Proof.
  induction d as [|[k' v'] d IH]; simpl; [discriminate|].
  destruct (String.eqb_spec k k') as [->|Hne].
  - intros [= ->]. now left.
  - intros Hget. right. auto.
Qed.

Lemma In_dict_get k v d :
  NoDup (keys d) -> In (k, v) d -> dict_get k d = Some v.
Proof.
  induction d as [|[k' v'] d IH]; simpl; [tauto|].
  intros Hnd [Heq|Hin].
  - injection Heq as -> ->. now rewrite String.eqb_refl.
  - inversion Hnd as [|? ? Hnotin Hnd']; subst.
    destruct (String.eqb_spec k k') as [->|Hne].
    + exfalso. apply Hnotin. change k' with (fst (k', v)).
      now apply in_map.
    + auto.
Qed.

Lemma dict_get_set_eq k v d : dict_get k (dict_set k v d) = Some v.
Proof.
  induction d as [|[k' v'] d IH]; simpl.
  - now rewrite String.eqb_refl.
  - destruct (String.eqb_spec k k') as [->|Hne]; simpl.
    + now rewrite String.eqb_refl.
    + destruct (String.eqb_spec k k'); [contradiction | exact IH].
Qed.

Lemma dict_get_set_neq k k' v d :
  k <> k' -> dict_get k (dict_set k' v d) = dict_get k d.
Proof.
  intros Hne. induction d as [|[k'' v''] d IH]; simpl.
  - destruct (String.eqb_spec k k'); [contradiction | reflexivity].
  - destruct (String.eqb_spec k' k'') as [->|Hne']; simpl.
    + destruct (String.eqb_spec k k''); [contradiction | reflexivity].
    + now rewrite IH.
Qed.

Lemma dict_get_set k k' v d :
  dict_get k (dict_set k' v d)
  = if String.eqb k k' then Some v else dict_get k d.
Proof.
  destruct (String.eqb_spec k k') as [->|Hne].
  - apply dict_get_set_eq.
  - now apply dict_get_set_neq.
Qed.

Lemma dict_set_fresh k v d :
  ~ In k (keys d) -> dict_set k v d = d ++ [(k, v)].
Proof.
  induction d as [|[k' v'] d IH]; simpl; [reflexivity|].
  intros Hn. destruct (String.eqb_spec k k') as [->|Hne].
  - exfalso. apply Hn. now left.
  - rewrite IH; [reflexivity | tauto].
Qed.

Lemma keys_dict_set_present k v d :
  In k (keys d) -> keys (dict_set k v d) = keys d.
Proof.
  induction d as [|[k' v'] d IH]; simpl; [tauto|].
  intros Hin. destruct (String.eqb_spec k k') as [->|Hne]; simpl.
  - reflexivity.
  - rewrite IH; [reflexivity|]. destruct Hin; [congruence | assumption].
Qed.

Lemma keys_app d d' : keys (d ++ d') = keys d ++ keys d'.
Proof. apply map_app. Qed.

Lemma keys_rev d : keys (rev d) = rev (keys d).
Proof. apply map_rev. Qed.

Lemma NoDup_rev_keys d : NoDup (keys d) -> NoDup (keys (rev d)).
Proof. rewrite keys_rev. apply NoDup_rev. Qed.

Lemma NoDup_keys_dict_set k v d :
  NoDup (keys d) -> NoDup (keys (dict_set k v d)).
Proof.
  intros Hnd. destruct (in_dec string_dec k (keys d)) as [Hin|Hn].
  - now rewrite keys_dict_set_present.
  - rewrite dict_set_fresh, keys_app by assumption. simpl.
    apply NoDup_app; [assumption | repeat constructor; intros [] |].
    intros x Hx [<-|[]]. contradiction.
Qed.

Lemma dict_get_rev k d :
  NoDup (keys d) -> dict_get k (rev d) = dict_get k d.
Proof.
  intros Hnd. destruct (dict_get k d) as [v|] eqn:Hget.
  - apply In_dict_get; [now apply NoDup_rev_keys|].
    apply in_rev. rewrite rev_involutive. now apply dict_get_In.
  - apply dict_get_None. apply dict_get_None in Hget.
    rewrite keys_rev. intros Hin. apply Hget. now apply in_rev.
Qed.

(** Assigning the items of a list without repeated keys, in order,
    appends them. *)
Lemma fold_dict_set_fresh (items acc : dict V) :
  NoDup (keys (acc ++ items)) ->
  fold_left (fun acc kv => dict_set (fst kv) (snd kv) acc) items acc
  = acc ++ items.
Proof.
  revert acc. induction items as [|[k v] items IH]; intros acc Hnd; simpl.
  - now rewrite app_nil_r.
  - rewrite dict_set_fresh.
    + rewrite IH; rewrite <- app_assoc; [reflexivity | exact Hnd].
    + rewrite keys_app in Hnd. simpl in Hnd.
      apply NoDup_remove_2 in Hnd. intros Hin. apply Hnd.
      apply in_or_app. now left.
Qed.

Lemma dict_of_items_unique (items : dict V) :
  NoDup (keys items) -> dict_of_items items = items.
Proof. intros Hnd. unfold dict_of_items. now rewrite fold_dict_set_fresh. Qed.

Lemma fold_dict_set_NoDup (items acc : dict V) :
  NoDup (keys acc) ->
  NoDup (keys (fold_left (fun acc kv => dict_set (fst kv) (snd kv) acc)
                         items acc)).
Proof.
  revert acc. induction items as [|[k v] items IH]; intros acc Hnd; simpl.
  - assumption.
  - apply IH. now apply NoDup_keys_dict_set.
Qed.
End DictFacts.

(* ================================================================== *)
(** * Broadcasting of named shapes *)
(* ================================================================== *)

Lemma bind_Ok {A B : Type} (r : res A) (f : A -> res B) (b : B) :
  bind r f = Ok b -> exists a, r = Ok a /\ f a = Ok b.
Proof. destruct r as [a|e]; simpl; [eauto | discriminate]. Qed.

Lemma bind_Raise {A B : Type} (r : res A) (f : A -> res B) (e : exn) :
  bind r f = Raise e -> r = Raise e \/ exists a, r = Ok a /\ f a = Raise e.
Proof. destruct r as [a|e']; simpl; [eauto | intros [= ->]; now left]. Qed.

Lemma res_cases {A : Type} (r : res A) :
  (exists a, r = Ok a) \/ (exists e, r = Raise e).
Proof. destruct r; eauto. Qed.

Lemma for_each_cons_Ok {A S : Type} (body : S -> A -> res S) x l s s' :
  for_each body (x :: l) s = Ok s' ->
  exists s1, body s x = Ok s1 /\ for_each body l s1 = Ok s'.
Proof. apply bind_Ok. Qed.

Lemma for_each_cons_Raise {A S : Type} (body : S -> A -> res S) x l s e :
  for_each body (x :: l) s = Raise e ->
  body s x = Raise e \/ exists s1, body s x = Ok s1 /\ for_each body l s1 = Raise e.
Proof. apply bind_Raise. Qed.

Section BroadcastFacts.
Variable shapes : list Shape.

(** What one turn of the inner loop leaves under each key. *)
Lemma merge_axis_lookup result axis size result' :
  merge_axis shapes result (axis, size) = Ok result' ->
  forall k,
    dict_get k result'
    = if String.eqb k axis
      then Some (match dict_get axis result with
                 | Some r => broadcast_size r size
                 | None => size
                 end)
      else dict_get k result.
Proof.
  unfold merge_axis, broadcast_size. intros Hm k.
  destruct (dict_get axis result) as [r|] eqn:Hget.
  - destruct (Z.eqb_spec r size) as [->|Hrs].
    + injection Hm as <-.
      destruct (String.eqb_spec k axis) as [->|]; [assumption | reflexivity].
    + destruct (Z.eqb_spec size 1) as [->|Hs1].
      * injection Hm as <-.
        destruct (Z.eqb_spec r 1); [contradiction|].
        destruct (String.eqb_spec k axis) as [->|]; [assumption | reflexivity].
      * destruct (Z.eqb_spec r 1) as [->|Hr1]; [|discriminate].
        injection Hm as <-. apply dict_get_set.
  - injection Hm as <-. apply dict_get_set.
Qed.

Lemma merge_axis_compatible result axis size result' r :
  merge_axis shapes result (axis, size) = Ok result' ->
  dict_get axis result = Some r -> compatible r size.
Proof.
  unfold merge_axis, compatible. intros Hm Hget. rewrite Hget in Hm.
  destruct (Z.eqb_spec r size); [now left|].
  destruct (Z.eqb_spec size 1); [now right; right|].
  destruct (Z.eqb_spec r 1); [now right; left | discriminate].
Qed.

Lemma merge_axis_succeeds result axis size :
  (forall r, dict_get axis result = Some r -> compatible r size) ->
  exists result', merge_axis shapes result (axis, size) = Ok result'.
Proof.
  unfold merge_axis, compatible. intros Hc.
  destruct (dict_get axis result) as [r|]; [|eauto].
  destruct (Z.eqb_spec r size); [eauto|].
  destruct (Z.eqb_spec size 1); [eauto|].
  destruct (Z.eqb_spec r 1); [eauto|].
  destruct (Hc r eq_refl) as [?|[?|?]]; contradiction.
Qed.

Lemma merge_axis_raises result entry e :
  merge_axis shapes result entry = Raise e ->
  e = ValueError (ShapesNotCompatible shapes).
Proof.
  destruct entry as [axis size]. unfold merge_axis.
  destruct (dict_get axis result) as [r|]; [|discriminate].
  destruct (r =? size); [discriminate|].
  destruct (size =? 1); [discriminate|].
  destruct (r =? 1); [discriminate|]. now intros [= <-].
Qed.

Lemma merge_axis_NoDup result entry result' :
  merge_axis shapes result entry = Ok result' ->
  NoDup (keys result) -> NoDup (keys result').
Proof.
  destruct entry as [axis size]. unfold merge_axis. intros Hm Hnd.
  destruct (dict_get axis result) as [r|].
  - destruct (r =? size); [now injection Hm as <-|].
    destruct (size =? 1); [now injection Hm as <-|].
    destruct (r =? 1); [|discriminate].
    injection Hm as <-. now apply NoDup_keys_dict_set.
  - injection Hm as <-. now apply NoDup_keys_dict_set.
Qed.

(** The inner loop over entries [l] without repeated keys. *)
Lemma merge_entries_lookup l : forall result result',
  NoDup (keys l) ->
  for_each (merge_axis shapes) l result = Ok result' ->
  forall k,
    dict_get k result'
    = match dict_get k l with
      | Some s => Some (match dict_get k result with
                        | Some r => broadcast_size r s
                        | None => s
                        end)
      | None => dict_get k result
      end.
Proof.
  induction l as [|[axis size] l IH]; intros result result' Hnd Hloop k.
  - simpl in *. now injection Hloop as <-.
  - apply for_each_cons_Ok in Hloop as (r1 & Hm & Hloop).
    inversion Hnd as [|? ? Hnotin Hnd']; subst.
    rewrite (IH _ _ Hnd' Hloop k), (merge_axis_lookup _ _ _ _ Hm k). simpl.
    destruct (String.eqb_spec k axis) as [->|Hne]; [|reflexivity].
    apply dict_get_None in Hnotin. now rewrite Hnotin.
Qed.

Lemma merge_entries_compatible l : forall result result',
  NoDup (keys l) ->
  for_each (merge_axis shapes) l result = Ok result' ->
  forall k s r,
    dict_get k l = Some s -> dict_get k result = Some r -> compatible r s.
Proof.
  induction l as [|[axis size] l IH]; intros result result' Hnd Hloop k s r.
  - discriminate.
  - apply for_each_cons_Ok in Hloop as (r1 & Hm & Hloop).
    inversion Hnd as [|? ? Hnotin Hnd']; subst. simpl.
    destruct (String.eqb_spec k axis) as [->|Hne].
    + intros [= <-] Hget. exact (merge_axis_compatible _ _ _ _ _ Hm Hget).
    + intros Hl Hget. apply (IH _ _ Hnd' Hloop k); [assumption|].
      rewrite (merge_axis_lookup _ _ _ _ Hm k).
      destruct (String.eqb_spec k axis); [contradiction | assumption].
Qed.

Lemma merge_entries_succeeds l : forall result,
  NoDup (keys l) ->
  (forall k s r,
     dict_get k l = Some s -> dict_get k result = Some r -> compatible r s) ->
  exists result', for_each (merge_axis shapes) l result = Ok result'.
Proof.
  induction l as [|[axis size] l IH]; intros result Hnd Hc.
  - simpl. eauto.
  - inversion Hnd as [|? ? Hnotin Hnd']; subst.
    destruct (merge_axis_succeeds result axis size) as [r1 Hm].
    { intros r Hget. apply (Hc axis); [|assumption].
      simpl. now rewrite String.eqb_refl. }
    change (for_each (merge_axis shapes) ((axis, size) :: l) result)
      with (bind (merge_axis shapes result (axis, size))
                 (for_each (merge_axis shapes) l)).
    rewrite Hm. simpl. apply IH; [assumption|].
    intros k s r Hl Hget. apply (Hc k); simpl.
    + destruct (String.eqb_spec k axis) as [->|]; [|assumption].
      apply dict_get_In in Hl. exfalso. apply Hnotin.
      change axis with (fst (axis, s)). now apply in_map.
    + rewrite (merge_axis_lookup _ _ _ _ Hm k) in Hget.
      destruct (String.eqb_spec k axis) as [->|]; [|assumption].
      apply dict_get_In in Hl. exfalso. apply Hnotin.
      change axis with (fst (axis, s)). now apply in_map.
Qed.

Lemma merge_entries_raises l : forall result e,
  for_each (merge_axis shapes) l result = Raise e ->
  e = ValueError (ShapesNotCompatible shapes).
Proof.
  induction l as [|entry l IH]; intros result e Hloop; [discriminate|].
  apply for_each_cons_Raise in Hloop as [Hm|(r1 & _ & Hloop)].
  - exact (merge_axis_raises _ _ _ Hm).
  - exact (IH _ _ Hloop).
Qed.

Lemma merge_entries_NoDup l : forall result result',
  for_each (merge_axis shapes) l result = Ok result' ->
  NoDup (keys result) -> NoDup (keys result').
Proof.
  induction l as [|entry l IH]; intros result result' Hloop Hnd.
  - simpl in Hloop. now injection Hloop as <-.
  - apply for_each_cons_Ok in Hloop as (r1 & Hm & Hloop).
    apply (IH _ _ Hloop). exact (merge_axis_NoDup _ _ _ Hm Hnd).
Qed.

(** Entries whose keys are new to [result] are appended in order. *)
Lemma merge_entries_fresh l : forall result,
  NoDup (keys (result ++ l)) ->
  for_each (merge_axis shapes) l result = Ok (result ++ l).
Proof.
  induction l as [|[axis size] l IH]; intros result Hnd.
  - simpl. now rewrite app_nil_r.
  - assert (Hnotin : ~ In axis (keys result)).
    { rewrite keys_app in Hnd. simpl in Hnd. apply NoDup_remove_2 in Hnd.
      intros Hin. apply Hnd. apply in_or_app. now left. }
    change (for_each (merge_axis shapes) ((axis, size) :: l) result)
      with (bind (merge_axis shapes result (axis, size))
                 (for_each (merge_axis shapes) l)).
    unfold merge_axis. apply dict_get_None in Hnotin as Hnone.
    rewrite Hnone. simpl. rewrite dict_set_fresh by assumption.
    rewrite IH; rewrite <- app_assoc; [reflexivity | exact Hnd].
Qed.

Lemma merge_shapes_NoDup l : forall result result',
  for_each (merge_shape shapes) l result = Ok result' ->
  NoDup (keys result) -> NoDup (keys result').
Proof.
  induction l as [|s l IH]; intros result result' Hloop Hnd.
  - simpl in Hloop. now injection Hloop as <-.
  - apply for_each_cons_Ok in Hloop as (r1 & Hm & Hloop).
    apply (IH _ _ Hloop). exact (merge_entries_NoDup _ _ _ Hm Hnd).
Qed.

Lemma merge_shapes_raises l : forall result e,
  for_each (merge_shape shapes) l result = Raise e ->
  e = ValueError (ShapesNotCompatible shapes).
Proof.
  induction l as [|s l IH]; intros result e Hloop; [discriminate|].
  apply for_each_cons_Raise in Hloop as [Hm|(r1 & _ & Hloop)].
  - exact (merge_entries_raises _ _ _ Hm).
  - exact (IH _ _ Hloop).
Qed.
End BroadcastFacts.

(** Every failure of [broadcast_shapes] is the [ValueError] that carries
    the shapes of the call. *)
Lemma broadcast_shapes_raises shapes e :
  broadcast_shapes shapes = Raise e ->
  e = ValueError (ShapesNotCompatible shapes).
Proof.
  unfold broadcast_shapes.
  destruct (for_each (merge_shape shapes) shapes []) as [r|e'] eqn:Hloop;
    simpl; [discriminate|].
  intros [= <-]. exact (merge_shapes_raises _ _ _ _ Hloop).
Qed.

(** The result of [broadcast_shapes] never repeats a key. *)
Lemma broadcast_shapes_unique_keys shapes r :
  broadcast_shapes shapes = Ok r -> unique_keys r.
Proof.
  unfold broadcast_shapes, unique_keys.
  destruct (for_each (merge_shape shapes) shapes []) as [r'|]; simpl;
    [|discriminate].
  intros [= <-]. apply fold_dict_set_NoDup. constructor.
Qed.

(** Two shapes: the call succeeds exactly when every shared axis is
    compatible, and then each key holds the broadcast size. *)
Lemma broadcast_pair A B :
  unique_keys A -> unique_keys B ->
  ((exists r, broadcast_shapes [A; B] = Ok r) <->
   (forall k a b, dict_get k A = Some a -> dict_get k B = Some b ->
                  compatible a b))
  /\ (forall r, broadcast_shapes [A; B] = Ok r ->
      forall k, dict_get k r
                = match dict_get k B with
                  | Some b => Some (match dict_get k A with
                                    | Some a => broadcast_size a b
                                    | None => b
                                    end)
                  | None => dict_get k A
                  end).
Proof.
  unfold unique_keys. intros HA HB.
  assert (Hfirst : merge_shape [A; B] [] A = Ok (rev A)).
  { unfold merge_shape. rewrite merge_entries_fresh; [reflexivity|].
    simpl. now apply NoDup_rev_keys. }
  assert (Hstep : broadcast_shapes [A; B]
                  = (r2 <- merge_shape [A; B] (rev A) B ;;
                     Ok (dict_of_items (rev r2)))).
  { unfold broadcast_shapes. simpl. rewrite Hfirst. simpl.
    now destruct (merge_shape [A; B] (rev A) B). }
  rewrite Hstep. unfold merge_shape.
  pose proof (NoDup_rev_keys _ HB) as HB'.
  split; [split|].
  - intros [r Hr] k a b Ha Hb.
    destruct (for_each (merge_axis [A; B]) (rev B) (rev A)) as [r2|] eqn:Hloop;
      [|discriminate].
    apply (merge_entries_compatible _ _ _ _ HB' Hloop k).
    + now rewrite dict_get_rev.
    + now rewrite dict_get_rev.
  - intros Hc.
    destruct (merge_entries_succeeds [A; B] (rev B) (rev A) HB')
      as [r2 Hloop].
    { intros k s r Hs Hr. rewrite dict_get_rev in Hs, Hr by assumption.
      now apply (Hc k). }
    rewrite Hloop. simpl. eauto.
  - intros r Hr k.
    destruct (for_each (merge_axis [A; B]) (rev B) (rev A)) as [r2|] eqn:Hloop;
      [|discriminate].
    simpl in Hr. injection Hr as <-.
    assert (Hnd2 : NoDup (keys r2)).
    { apply (merge_entries_NoDup _ _ _ _ Hloop). now apply NoDup_rev_keys. }
    rewrite dict_of_items_unique by now apply NoDup_rev_keys.
    rewrite dict_get_rev by assumption.
    rewrite (merge_entries_lookup _ _ _ _ HB' Hloop k).
    now rewrite !dict_get_rev by assumption.
Qed.

Lemma compatible_sym a b : compatible a b -> compatible b a.
Proof. unfold compatible. intuition congruence. Qed.

Lemma broadcast_size_sym a b :
  compatible a b -> broadcast_size a b = broadcast_size b a.
Proof.
  unfold compatible, broadcast_size. intros Hc.
  destruct (Z.eqb_spec a b), (Z.eqb_spec b a), (Z.eqb_spec a 1),
    (Z.eqb_spec b 1); lia.
Qed.

Ltac solve_unique_keys :=
  unfold unique_keys; simpl;
  repeat (constructor; [simpl; intuition discriminate|]); constructor.

(** C1.  Two shapes [A] and [B] that share the axis [k], with sizes [a]
    and [b].  The call [broadcast_shapes(A, B)] succeeds exactly when
    every axis the two shapes share has compatible sizes.  When it
    succeeds, [k] is mapped to [a] if [a = b] and to the size that is
    not 1 if exactly one of the two is 1.  When [a] and [b] differ and
    neither is 1 the call raises the [ValueError] whose message carries
    the two shapes.  Swapping [A] and [B] changes neither the success of
    the call nor the size found under [k]. *)
Theorem broadcast_shapes_shared_axis (A B : Shape) (k : string) (a b : Z) :
  unique_keys A -> unique_keys B ->
  dict_get k A = Some a -> dict_get k B = Some b ->
  ((exists r, broadcast_shapes [A; B] = Ok r) <->
   (forall j x y, dict_get j A = Some x -> dict_get j B = Some y ->
                  compatible x y))
  /\ (forall r, broadcast_shapes [A; B] = Ok r ->
        (a = b -> dict_get k r = Some a)
        /\ (a = 1 -> b <> 1 -> dict_get k r = Some b)
        /\ (b = 1 -> a <> 1 -> dict_get k r = Some a))
  /\ (a <> b -> a <> 1 -> b <> 1 ->
      broadcast_shapes [A; B] = Raise (ValueError (ShapesNotCompatible [A; B])))
  /\ (forall r, broadcast_shapes [A; B] = Ok r ->
        exists r', broadcast_shapes [B; A] = Ok r'
                   /\ dict_get k r' = dict_get k r)
  /\ (forall e, broadcast_shapes [A; B] = Raise e ->
        broadcast_shapes [B; A]
        = Raise (ValueError (ShapesNotCompatible [B; A]))).
Proof.
  intros HA HB Ha Hb.
  destruct (broadcast_pair A B HA HB) as [Hok Hlook].
  destruct (broadcast_pair B A HB HA) as [Hok' Hlook'].
  assert (Hsize : forall r, broadcast_shapes [A; B] = Ok r ->
                            dict_get k r = Some (broadcast_size a b)).
  { intros r Hr. now rewrite (Hlook r Hr k), Hb, Ha. }
  assert (Hswap : (forall j x y, dict_get j A = Some x ->
                     dict_get j B = Some y -> compatible x y) ->
                  forall j y x, dict_get j B = Some y ->
                     dict_get j A = Some x -> compatible y x).
  { intros Hc j y x Hy Hx. apply compatible_sym. now apply (Hc j). }
  unfold Shape, dict in *.
  split; [exact Hok|]. split; [|split; [|split]].
  - intros r Hr. rewrite (Hsize r Hr). unfold broadcast_size.
    repeat split; intros;
      destruct (Z.eqb_spec a b), (Z.eqb_spec a 1); congruence.
  - intros Hab Ha1 Hb1.
    destruct (res_cases (broadcast_shapes [A; B])) as [Hex|[e He]].
    + exfalso.
      destruct (proj1 Hok Hex k a b Ha Hb) as [?|[?|?]]; contradiction.
    + rewrite He. now rewrite (broadcast_shapes_raises _ _ He).
  - intros r Hr.
    assert (Hc : forall j x y, dict_get j A = Some x ->
                   dict_get j B = Some y -> compatible x y)
      by exact (proj1 Hok (ex_intro _ r Hr)).
    destruct (proj2 Hok' (Hswap Hc)) as [r' Hr'].
    exists r'. split; [assumption|].
    rewrite (Hsize r Hr), (Hlook' r' Hr' k), Ha, Hb.
    f_equal. apply broadcast_size_sym, compatible_sym. now apply (Hc k).
  - intros e He.
    destruct (res_cases (broadcast_shapes [B; A])) as [Hex|[e' He']].
    + exfalso.
      pose proof (proj1 Hok' Hex) as Hc'.
      assert (Hc : forall j x y, dict_get j A = Some x ->
                     dict_get j B = Some y -> compatible x y).
      { intros j x y Hx Hy. apply compatible_sym. now apply (Hc' j). }
      destruct (proj2 Hok Hc) as [r Hr]. rewrite Hr in He. discriminate.
    + rewrite He'. now rewrite (broadcast_shapes_raises _ _ He').
Qed.

Lemma broadcast_shapes_shared_axis_witness :
  let A := [("x", 3); ("y", 1)] in
  let B := [("y", 4); ("z", 2)] in
  unique_keys A /\ unique_keys B /\
  dict_get "y" A = Some 1 /\ dict_get "y" B = Some 4 /\
  (forall r, broadcast_shapes [A; B] = Ok r -> dict_get "y" r = Some 4) /\
  (forall r, broadcast_shapes [A; B] = Ok r ->
     exists r', broadcast_shapes [B; A] = Ok r'
                /\ dict_get "y" r' = dict_get "y" r).
Proof.
  assert (HA : unique_keys [("x", 3); ("y", 1)]) by solve_unique_keys.
  assert (HB : unique_keys [("y", 4); ("z", 2)]) by solve_unique_keys.
  pose proof (broadcast_shapes_shared_axis
                [("x", 3); ("y", 1)] [("y", 4); ("z", 2)] "y" 1 4
                HA HB eq_refl eq_refl) as (_ & Hsize & _ & Hswap & _).
  simpl. repeat split; try assumption.
  intros r Hr. apply (Hsize r Hr); [reflexivity | discriminate].
Defined.

(** C2 (as stated, refuted).  The broadcast of [{"x": 3, "y": 1}] and
    [{"y": 4, "z": 2}] is not the ordered mapping with the key sequence
    z, y, x. *)
Lemma broadcast_example_not_z_y_x :
  broadcast_shapes [[("x", 3); ("y", 1)]; [("y", 4); ("z", 2)]]
  <> Ok [("z", 2); ("y", 4); ("x", 3)].
Proof. vm_compute. discriminate. Qed.

(** C2 (amended).  The broadcast of [{"x": 3, "y": 1}] and
    [{"y": 4, "z": 2}], in that order, is the ordered mapping with the
    key sequence z, x, y and the sizes 2, 3, 4: the key and size pairs
    of [{"z": 2, "y": 4, "x": 3}], in another order.  With the sizes 4
    and 5 under "y" the call raises the [ValueError] that carries the two
    shapes. *)
Theorem broadcast_example :
  let r := [("z", 2); ("x", 3); ("y", 4)] in
  broadcast_shapes [[("x", 3); ("y", 1)]; [("y", 4); ("z", 2)]] = Ok r
  /\ (forall k, dict_get k r = dict_get k [("z", 2); ("y", 4); ("x", 3)])
  /\ broadcast_shapes [[("x", 3); ("y", 4)]; [("y", 5); ("z", 2)]]
     = Raise (ValueError (ShapesNotCompatible
                [[("x", 3); ("y", 4)]; [("y", 5); ("z", 2)]])).
Proof.
  simpl. split; [reflexivity|]. split; [|reflexivity].
  intros k. simpl.
  destruct (String.eqb_spec k "z") as [->|]; [reflexivity|].
  destruct (String.eqb_spec k "x") as [->|]; [reflexivity|].
  destruct (String.eqb_spec k "y") as [->|]; reflexivity.
Qed.

(** C9.  [broadcast_shapes] of a single shape [S] returns [S] itself:
    the same keys with the same sizes in the same order.  Hence
    [broadcast_shapes] leaves every one of its own results unchanged. *)
Theorem broadcast_shapes_single (S : Shape) :
  unique_keys S ->
  broadcast_shapes [S] = Ok S
  /\ (forall shapes r,
        broadcast_shapes shapes = Ok r -> broadcast_shapes [r] = Ok r).
Proof.
  assert (Hsingle : forall S', unique_keys S' -> broadcast_shapes [S'] = Ok S').
  { unfold unique_keys. intros S' HS. unfold broadcast_shapes.
    simpl. unfold merge_shape.
    rewrite merge_entries_fresh by (simpl; now apply NoDup_rev_keys).
    simpl. rewrite rev_involutive. now rewrite dict_of_items_unique. }
  intros HS. split; [now apply Hsingle|].
  intros shapes r Hr. apply Hsingle.
  exact (broadcast_shapes_unique_keys _ _ Hr).
Qed.

Lemma broadcast_shapes_single_witness :
  let S := [("time", 3); ("wavelength", 5); ("x", 1)] in
  unique_keys S /\ broadcast_shapes [S] = Ok S.
Proof.
  assert (HS : unique_keys [("time", 3); ("wavelength", 5); ("x", 1)])
    by solve_unique_keys.
  simpl. split; [exact HS|].
  exact (proj1 (broadcast_shapes_single _ HS)).
Defined.

(* ================================================================== *)
(** * Type resolution *)
(* ================================================================== *)

Section TypeArrayFacts.
Context {Array : Type}.
Variable type_array_of : Array -> pyclass.

Local Abbreviation step := (type_array_step type_array_of).
Local Abbreviation priority := (priority type_array_of).

(** Operands that do not exceed the running maximum leave the state
    as it is. *)
Lemma type_array_loop_unchanged (l : list (operand Array)) cls priority_max :
  (forall b, In (Named b) l -> priority b <= priority_max) ->
  fold_left step l (cls, priority_max) = (cls, priority_max).
Proof.
  induction l as [|value l IH]; intros Hle; simpl; [reflexivity|].
  destruct value as [v|b]; simpl.
  - apply IH. intros b Hin. apply Hle. now right.
  - fold (priority b).
    destruct (Z.gtb_spec (priority b) priority_max) as [Hgt|_].
    + specialize (Hle b (or_introl eq_refl)). lia.
    + apply IH. intros b' Hin. apply Hle. now right.
Qed.

(** Operands below a bound keep the running maximum below it. *)
Lemma type_array_loop_below (l : list (operand Array)) bound :
  (forall b, In (Named b) l -> priority b < bound) ->
  forall cls priority_max,
    priority_max < bound ->
    snd (fold_left step l (cls, priority_max)) < bound.
Proof.
  induction l as [|value l IH]; intros Hlt cls priority_max Hmax; simpl;
    [assumption|].
  assert (Hl : forall b, In (Named b) l -> priority b < bound)
    by (intros b Hin; apply Hlt; now right).
  destruct value as [v|b]; simpl.
  - now apply IH.
  - fold (priority b).
    destruct (Z.gtb_spec (priority b) priority_max) as [Hgt|_].
    + apply IH; [assumption|]. apply Hlt. now left.
    + now apply IH.
Qed.

(** The loop, started below the priority of the winner, ends on the
    winner. *)
Lemma type_array_loop_winner before a after cls priority_max :
  (forall b, In (Named b) before -> priority b < priority a) ->
  (forall b, In (Named b) after -> priority b <= priority a) ->
  priority_max < priority a ->
  fold_left step (before ++ Named a :: after) (cls, priority_max)
  = (Some (type_array_of a), priority a).
Proof.
  intros Hbefore Hafter Hmax. rewrite fold_left_app.
  pose proof (type_array_loop_below before (priority a) Hbefore
                cls priority_max Hmax) as Hbelow.
  destruct (fold_left step before (cls, priority_max)) as [cls1 max1].
  simpl in Hbelow. simpl. fold (priority a).
  destruct (Z.gtb_spec (priority a) max1) as [_|Hle]; [|lia].
  apply type_array_loop_unchanged. assumption.
Qed.
End TypeArrayFacts.

(** C7 (as stated, refuted).  A single named array whose class has the
    priority 0 is the operand of the highest priority, and the first; yet
    [type_array] does not return its class. *)
Lemma type_array_priority_zero :
  let ScalarArray := {| __name__ := "ScalarArray";
                        __named_array_priority__ := 0 |} in
  let type_array_of := fun _ : unit => ScalarArray in
  first_of_highest_priority type_array_of [Named tt] tt
  /\ type_array type_array_of [Named tt] <> Some ScalarArray.
Proof.
  simpl. split.
  - exists [], []. repeat split; intros b [].
  - discriminate.
Qed.

(** C7 (amended).  Let [a] be the named array of the highest priority
    among the named arrays of [values], the first one that attains it.
    When the priority of [a] is greater than 0, [type_array] returns the
    explicit array class of [a]; when it is not, [type_array] returns
    [None]. *)
Theorem type_array_first_of_highest_priority
    (Array : Type) (type_array_of : Array -> pyclass)
    (values : list (operand Array)) (a : Array) :
  first_of_highest_priority type_array_of values a ->
  (0 < priority type_array_of a ->
   type_array type_array_of values = Some (type_array_of a))
  /\ (priority type_array_of a <= 0 ->
      type_array type_array_of values = None).
Proof.
  intros (before & after & -> & Hbefore & Hafter). unfold type_array. split.
  - intros Hpos. now rewrite type_array_loop_winner.
  - intros Hle. rewrite type_array_loop_unchanged; [reflexivity|].
    intros b Hin. apply in_app_or in Hin as [Hin|[Heq|Hin]].
    + specialize (Hbefore b Hin). lia.
    + injection Heq as ->. assumption.
    + specialize (Hafter b Hin). lia.
Qed.

Lemma type_array_first_of_highest_priority_witness :
  let scalar := {| __name__ := "ScalarArray";
                   __named_array_priority__ := 1 |} in
  let vector := {| __name__ := "Cartesian2dVectorArray";
                   __named_array_priority__ := 100 |} in
  let type_array_of := fun a : Z => if a <? 10 then scalar else vector in
  let values := [Plain (PyFloat 2); Named 1; Named 10; Named 11; Named 2] in
  first_of_highest_priority type_array_of values 10
  /\ type_array type_array_of values = Some vector.
Proof.
  set (scalar := {| __name__ := "ScalarArray";
                    __named_array_priority__ := 1 |}).
  set (vector := {| __name__ := "Cartesian2dVectorArray";
                    __named_array_priority__ := 100 |}).
  set (type_array_of := fun a : Z => if a <? 10 then scalar else vector).
  set (values := [Plain (PyFloat 2); Named 1; Named 10; Named 11; Named 2]).
  assert (Hwin : first_of_highest_priority type_array_of values 10).
  { exists [Plain (PyFloat 2); Named 1], [Named 11; Named 2].
    split; [reflexivity|]. split; intros b Hin; simpl in Hin.
    - destruct Hin as [Heq|[Heq|[]]]; [discriminate|].
      injection Heq as <-. reflexivity.
    - destruct Hin as [Heq|[Heq|[]]]; injection Heq as <-; discriminate. }
  split; [exact Hwin|].
  exact (proj1 (type_array_first_of_highest_priority
                  Z type_array_of values 10 Hwin) eq_refl).
Defined.

(** C10.  When no operand is a named array, [type_array] returns [None]:
    it neither raises nor returns a class. *)
Theorem type_array_no_named_array
    (Array : Type) (type_array_of : Array -> pyclass)
    (values : list (operand Array)) :
  (forall value, In value values -> is_named value = false) ->
  type_array type_array_of values = None.
Proof.
  intros Hplain. unfold type_array.
  rewrite type_array_loop_unchanged; [reflexivity|].
  intros b Hin. specialize (Hplain _ Hin). discriminate.
Qed.

Lemma type_array_no_named_array_witness :
  let values : list (operand unit) :=
    [Plain (PyBool true); Plain (PyInt 3); Plain (PyFloat (1 # 2));
     Plain (PyComplex 0 1); Plain (NdArray [1; 2]%Q);
     Plain (Quantity 5 "mm")] in
  (forall value, In value values -> is_named value = false)
  /\ type_array (fun _ : unit => {| __name__ := "ScalarArray";
                                    __named_array_priority__ := 1 |})
                values = None.
Proof.
  simpl.
  assert (Hplain : forall value : operand unit,
            In value [Plain (PyBool true); Plain (PyInt 3);
                      Plain (PyFloat (1 # 2)); Plain (PyComplex 0 1);
                      Plain (NdArray [1; 2]%Q); Plain (Quantity 5 "mm")] ->
            is_named value = false).
  { intros value Hin. simpl in Hin.
    repeat (destruct Hin as [<-|Hin]; [reflexivity|]). destruct Hin. }
  split; [exact Hplain|].
  exact (type_array_no_named_array unit _ _ Hplain).
Defined.

(* ================================================================== *)
(** * The indexing protocol *)
(* ================================================================== *)

Section IndexingFacts.
Context {Array Value : Type} `{AbstractArray Array Value}.
Variables (self : Array) (it : item Array).

Local Abbreviation asked :=
  (map (fun c => Call_getitem_reversed c self it)).

(** The loop stops at the first index array that answers. *)
Lemma getitem_reversed_loop_first (entries : dict (subitem Array)) :
  forall before b after r,
    reversed_handlers (ItemDict entries) = before ++ b :: after ->
    (forall c, In c before -> _getitem_reversed c self it = NotImplemented) ->
    answer (_getitem_reversed b self it) = Some r ->
    getitem_reversed_loop self it entries = (asked (before ++ [b]), Some r).
Proof.
  induction entries as [|[ax sub] entries IH];
    intros before b after r Hsplit Hdecline Hanswer; simpl in Hsplit.
  - now destruct before.
  - destruct sub as [i|start stop step|c]; simpl in *;
      try (now apply (IH before b after)).
    destruct before as [|c' before]; simpl in Hsplit;
      injection Hsplit as <- Hsplit.
    + now rewrite Hanswer.
    + rewrite (Hdecline c (or_introl eq_refl)). simpl.
      rewrite (IH before b after r Hsplit); [reflexivity| |assumption].
      intros c' Hin. apply Hdecline. now right.
Qed.

(** The loop asks every index array when all of them decline. *)
Lemma getitem_reversed_loop_declined (entries : dict (subitem Array)) :
  (forall c, In c (reversed_handlers (ItemDict entries)) ->
             _getitem_reversed c self it = NotImplemented) ->
  getitem_reversed_loop self it entries
  = (asked (reversed_handlers (ItemDict entries)), None).
Proof.
  induction entries as [|[ax sub] entries IH]; intros Hdecline; simpl.
  - reflexivity.
  - destruct sub as [i|start stop step|c]; simpl in *; try (now apply IH).
    rewrite (Hdecline c (or_introl eq_refl)). simpl.
    rewrite IH; [reflexivity|]. intros c' Hin. apply Hdecline. now right.
Qed.
End IndexingFacts.

(** C3 (as stated, refuted).  A host and an index array that both
    decline: indexing raises, and what it raises is no [TypeError]. *)
Lemma getitem_declined_is_no_TypeError :
  let it := ItemDict [("x", SubInt 0); ("y", SubArray Bystander)] in
  _getitem Host it = NotImplemented
  /\ (forall c, In c (reversed_handlers it) ->
                _getitem_reversed c Host it = NotImplemented)
  /\ forall m, getitem Host it <> Raise (TypeError m).
Proof.
  simpl. split; [reflexivity|]. split.
  - intros c [<-|[]]. reflexivity.
  - intros m. discriminate.
Qed.

(** C3 (amended).  [a[item]] first invokes [a._getitem(item)] and
    returns its result when that is not [NotImplemented].  Otherwise it
    invokes, in item order, [_getitem_reversed(a, item)] of each
    axis-keyed sub-item that is a named array, or of the item itself when
    the item is a named array, and returns the first result that is not
    [NotImplemented]; no later handler is invoked.  When every handler
    declines, indexing raises the [ValueError] whose message names the
    type of [a]. *)
Theorem getitem_dispatch
    (Array Value : Type) (H : AbstractArray Array Value)
    (self : Array) (it : item Array) :
  let asked := map (fun c => Call_getitem_reversed c self it) in
  (forall r, answer (_getitem self it) = Some r ->
             __getitem__ self it = ([Call_getitem self it], r))
  /\ (_getitem self it = NotImplemented ->
      (forall before b after r,
         reversed_handlers it = before ++ b :: after ->
         (forall c, In c before ->
                    _getitem_reversed c self it = NotImplemented) ->
         answer (_getitem_reversed b self it) = Some r ->
         __getitem__ self it
         = (Call_getitem self it :: asked (before ++ [b]), r))
      /\ ((forall c, In c (reversed_handlers it) ->
                     _getitem_reversed c self it = NotImplemented) ->
          __getitem__ self it
          = (Call_getitem self it :: asked (reversed_handlers it),
             Raise (ValueError (ItemNotSupported (type_name self)))))).
Proof.
  intros asked. unfold __getitem__. split; [|intros Hself; split].
  - intros r Hr. now rewrite Hr.
  - intros before b after r Hsplit Hdecline Hanswer. rewrite Hself. simpl.
    destruct it as [d|c|]; simpl in Hsplit.
    + now rewrite (getitem_reversed_loop_first self (ItemDict d) d
                     before b after r Hsplit Hdecline Hanswer).
    + destruct before as [|c' before]; simpl in Hsplit.
      * injection Hsplit as <- _. now rewrite Hanswer.
      * injection Hsplit as _ Hsplit. now destruct before.
    + now destruct before.
  - intros Hdecline. rewrite Hself. simpl.
    destruct it as [d|c|].
    + now rewrite (getitem_reversed_loop_declined self (ItemDict d) d Hdecline).
    + simpl. now rewrite (Hdecline c (or_introl eq_refl)).
    + reflexivity.
Qed.

Lemma getitem_dispatch_witness :
  let it := ItemDict [("t", SubInt 1); ("x", SubArray Bystander);
                      ("y", SubArray (Selector 5));
                      ("z", SubArray (Selector 6))] in
  _getitem Host it = NotImplemented
  /\ reversed_handlers it = [Bystander] ++ Selector 5 :: [Selector 6]
  /\ __getitem__ Host it
     = ([Call_getitem Host it; Call_getitem_reversed Bystander Host it;
         Call_getitem_reversed (Selector 5) Host it], Ok 5).
Proof.
  intros it. split; [reflexivity|]. split; [reflexivity|].
  refine (proj1 (proj2 (getitem_dispatch role Z _ Host it) eq_refl)
            [Bystander] (Selector 5) [Selector 6] (Ok 5) eq_refl _ eq_refl).
  intros c [<-|[]]. reflexivity.
Defined.
(* ================================================================== *)
(** * Binary64 numbers *)
(* ================================================================== *)

Lemma digits2_pos_bounds (m : positive) :
  2 ^ (Zpos (digits2_pos m) - 1) <= Zpos m < 2 ^ Zpos (digits2_pos m).
Proof.
  induction m as [p IH|p IH|]; simpl digits2_pos.
  - rewrite Pos2Z.inj_succ.
    replace (Z.succ (Zpos (digits2_pos p)) - 1)
      with (Z.succ (Zpos (digits2_pos p) - 1)) by lia.
    rewrite !Z.pow_succ_r by lia. lia.
  - rewrite Pos2Z.inj_succ.
    replace (Z.succ (Zpos (digits2_pos p)) - 1)
      with (Z.succ (Zpos (digits2_pos p) - 1)) by lia.
    rewrite !Z.pow_succ_r by lia. lia.
  - simpl. lia.
Qed.

(** The mantissa and the exponent of a binary64 number: at most 53
    digits, and exactly 53 above the least exponent. *)
Lemma float_finite_valid (x : float) (s : bool) (m : positive) (e : Z) :
  Prim2SF x = S754_finite s m e ->
  Zpos m < 2 ^ 53 /\ - 1074 <= e /\ (- 1074 < e -> 2 ^ 52 <= Zpos m).
Proof.
  intros Hx. pose proof (Prim2SF_valid x) as Hvalid. rewrite Hx in Hvalid.
  simpl in Hvalid. unfold bounded, canonical_mantissa, fexp, emin in Hvalid.
  apply andb_prop in Hvalid as [Hcanonical _].
  apply Z.eqb_eq in Hcanonical.
  pose proof (digits2_pos_bounds m) as [Hlow Hhigh].
  change prec with 53 in Hcanonical. change emax with 1024 in Hcanonical.
  assert (Hd : Zpos (digits2_pos m) <= 53) by lia.
  split; [|split].
  - apply Z.lt_le_trans with (2 ^ Zpos (digits2_pos m)); [assumption|].
    apply Z.pow_le_mono_r; lia.
  - lia.
  - intros He. replace (Zpos (digits2_pos m)) with 53 in Hlow by lia.
    exact Hlow.
Qed.

(** A positive number [x] that is not at or above a positive number
    [f], mantissas and exponents compared. *)
Lemma float_below_positive (f x : float) (mf m : positive) (ef e : Z) :
  Prim2SF f = S754_finite false mf ef ->
  Prim2SF x = S754_finite false m e ->
  PrimFloat.leb f x = false ->
  e <= ef /\ Zpos m < Zpos mf * 2 ^ (ef - e).
Proof.
  intros Hf Hx Hle. rewrite leb_spec, Hf, Hx in Hle.
  unfold SFleb, SFcompare in Hle.
  destruct (float_finite_valid x false m e Hx) as (Hm & He & _).
  destruct (float_finite_valid f false mf ef Hf) as (_ & _ & Hmf).
  destruct (Z.compare_spec ef e) as [Heq|Hlt|Hgt]; try discriminate.
  - subst ef. rewrite Z.sub_diag. simpl (2 ^ 0).
    change (Pos.compare_cont Eq mf m) with (Pos.compare mf m) in Hle.
    destruct (Pos.compare_spec mf m); try discriminate. lia.
  - split; [lia|].
    assert (Hpow : 2 ^ 1 <= 2 ^ (ef - e)) by (apply Z.pow_le_mono_r; lia).
    specialize (Hmf ltac:(lia)). change (2 ^ 1) with 2 in Hpow.
    change (2 ^ 53) with (2 ^ 52 * 2) in Hm. nia.
Qed.

(** The floor of such an [x] is below the integer that [f] is. *)
Lemma float_floor_below (f x : float) (m : positive) (e k : Z) :
  1 <= k ->
  float_is_int f k = true ->
  Prim2SF x = S754_finite false m e ->
  PrimFloat.leb f x = false ->
  0 <= Z.shiftl (Zpos m) e < k.
Proof.
  intros Hk Hint Hx Hle. split; [apply Z.shiftl_nonneg; lia|].
  unfold float_is_int in Hint.
  destruct (Prim2SF f) as [sf|sf| |sf mf ef] eqn:Hf; try discriminate.
  { apply Z.eqb_eq in Hint. lia. }
  assert (Hpos : forall a, 0 < 2 ^ a \/ a < 0).
  { intros a. destruct (Z.le_gt_cases 0 a); [left|right; lia].
    now apply Z.pow_pos_nonneg. }
  assert (Hsf : sf = false).
  { destruct sf; [exfalso|reflexivity]. unfold cond_Zopp in Hint.
    destruct (Z.leb_spec 0 ef); apply Z.eqb_eq in Hint.
    - destruct (Hpos ef); nia.
    - destruct (Hpos (- ef)); nia. }
  subst sf. unfold cond_Zopp in Hint.
  destruct (float_below_positive f x mf m ef e Hf Hx Hle) as [Hee Hlt].
  destruct (Z.le_gt_cases 0 e) as [He|He].
  - rewrite Z.shiftl_mul_pow2 by assumption.
    destruct (Z.leb_spec 0 ef); [|lia]. apply Z.eqb_eq in Hint.
    replace ef with (ef - e + e) in Hint by lia.
    rewrite Z.pow_add_r in Hint by lia.
    destruct (Hpos e); nia.
  - replace e with (- (- e)) by lia. rewrite Z.shiftl_opp_r.
    rewrite Z.shiftr_div_pow2 by lia.
    apply Z.div_lt_upper_bound; [destruct (Hpos (- e)); lia|].
    destruct (Z.leb_spec 0 ef); apply Z.eqb_eq in Hint.
    + replace (ef - e) with (ef + - e) in Hlt by lia.
      rewrite Z.pow_add_r in Hlt by lia. nia.
    + replace (- e) with (- ef + (ef - e)) by lia.
      rewrite Z.pow_add_r by lia. nia.
Qed.

Lemma float_is_int_positive (f : float) (k : Z) :
  1 <= k -> float_is_int f k = true ->
  exists mf ef, Prim2SF f = S754_finite false mf ef.
Proof.
  intros Hk Hint. unfold float_is_int in Hint.
  destruct (Prim2SF f) as [sf|sf| |sf mf ef]; try discriminate.
  { apply Z.eqb_eq in Hint. lia. }
  destruct sf; [exfalso|now exists mf, ef]. unfold cond_Zopp in Hint.
  assert (Hpos : forall a, 0 <= 2 ^ a) by (intros a; apply Z.pow_nonneg; lia).
  destruct (Z.leb_spec 0 ef); apply Z.eqb_eq in Hint.
  - specialize (Hpos ef). nia.
  - specialize (Hpos (- ef)). nia.
Qed.

(** The three cases of the lower neighbour of a binary64 coordinate [x]
    that is not a NaN, on an axis of size [n]: below 0, at or above
    [n - 1], or in between, where [floor(x)] and [int(x)] agree and lie
    within [0, n - 2]. *)
Lemma float_neighbor_cases (n : Z) (x : float) :
  2 <= n ->
  float_is_int (float_of_int (n - 1)) (n - 1) = true ->
  float_is_nan x = false ->
  (PrimFloat.ltb x 0 = true
   /\ PrimFloat.leb (float_of_int (n - 1)) x = false)
  \/ (PrimFloat.ltb x 0 = false
      /\ PrimFloat.leb (float_of_int (n - 1)) x = true)
  \/ (PrimFloat.ltb x 0 = false
      /\ PrimFloat.leb (float_of_int (n - 1)) x = false
      /\ exists k, float_floor x = Some k /\ float_int x = Ok k
                   /\ 0 <= k <= n - 2).
Proof.
  intros Hn Hint Hnan.
  destruct (float_is_int_positive (float_of_int (n - 1)) (n - 1)
              ltac:(lia) Hint) as (mf & ef & Hf).
  assert (Hzero : Prim2SF 0%float = S754_zero false) by reflexivity.
  unfold float_is_nan in Hnan. unfold float_floor, float_int.
  rewrite ltb_spec, Hzero.
  destruct (PrimFloat.leb (float_of_int (n - 1)) x) eqn:Hle.
  - rewrite leb_spec, Hf in Hle.
    destruct (Prim2SF x) as [s|s| |s m e]; try discriminate;
      destruct s; try discriminate; right; left; split; reflexivity.
  - destruct (Prim2SF x) as [s|s| |s m e] eqn:Hx; try discriminate.
    + right. right. split; [now destruct s|]. split; [reflexivity|].
      exists 0. split; [reflexivity|]. split; [reflexivity|]. lia.
    + rewrite leb_spec, Hf, Hx in Hle. destruct s; [|discriminate].
      left. split; reflexivity.
    + destruct s; [left; split; reflexivity|]. right. right.
      split; [reflexivity|]. split; [reflexivity|].
      exists (Z.shiftl (Zpos m) e). split; [reflexivity|].
      split; [reflexivity|].
      pose proof (float_floor_below (float_of_int (n - 1)) x m e (n - 1)
                    ltac:(lia) Hint Hx Hle).
      lia.
Qed.


(** ** Integers as binary64 numbers *)

Lemma digits2_pos_iter_xO (p d : positive) :
  digits2_pos (Pos.iter xO p d) = (digits2_pos p + d)%positive
  /\ Zpos (Pos.iter xO p d) = Zpos p * 2 ^ Zpos d.
Proof.
  induction d as [|d [IHd IHv]] using Pos.peano_ind.
  - simpl. split; [now rewrite Pos.add_1_r | lia].
  - rewrite Pos.iter_succ. simpl digits2_pos. rewrite IHd.
    split; [now rewrite Pos.add_succ_r|].
    rewrite Pos2Z.inj_xO, IHv, Pos2Z.inj_succ, Z.pow_succ_r by lia. lia.
Qed.

(** A mantissa of 53 digits is left as it is. *)
Lemma binary_round_aux_exact (m : positive) (e : Z) :
  Zpos (digits2_pos m) = 53 -> - 1074 <= e <= 971 ->
  binary_round_aux 53 1024 false (Zpos m) e loc_Exact = S754_finite false m e.
Proof.
  intros Hd He. unfold binary_round_aux.
  assert (Hshr : shr_fexp 53 1024 (Zpos m) e loc_Exact
                 = ({| shr_m := Zpos m; shr_r := false; shr_s := false |}, e)).
  { unfold shr_fexp. cbn [Zdigits2]. rewrite Hd.
    replace (fexp 53 1024 (53 + e) - e) with 0
      by (unfold fexp, emin; lia).
    reflexivity. }
  rewrite Hshr. cbn [shr_m loc_of_shr_record round_nearest_even].
  rewrite Hshr. cbn [shr_m].
  destruct (Z.leb_spec e (1024 - 53)); [reflexivity|lia].
Qed.

(** A positive integer below [2^53] is shifted to 53 digits. *)
Lemma binary_round_exact (p : positive) :
  Zpos p < 2 ^ 53 ->
  exists m e, binary_round 53 1024 false p 0 = S754_finite false m e
              /\ e <= 0 /\ Zpos m = Zpos p * 2 ^ (- e).
Proof.
  intros Hp. pose proof (digits2_pos_bounds p) as [Hlow _].
  assert (Hd : 1 <= Zpos (digits2_pos p) <= 53).
  { split; [lia|]. destruct (Z.le_gt_cases (Zpos (digits2_pos p)) 53) as [|Hgt];
      [assumption|exfalso].
    assert (2 ^ 53 <= 2 ^ (Zpos (digits2_pos p) - 1))
      by (apply Z.pow_le_mono_r; lia). lia. }
  unfold binary_round, shl_align.
  replace (fexp 53 1024 (Zpos (digits2_pos p) + 0))
    with (Zpos (digits2_pos p) - 53) by (unfold fexp, emin; lia).
  destruct (Zpos (digits2_pos p) - 53 - 0) as [|d|d] eqn:Hshift; [|lia|].
  - exists p, 0. rewrite binary_round_aux_exact by lia.
    repeat split; simpl; lia.
  - destruct (digits2_pos_iter_xO p d) as [Hdigits Hvalue].
    exists (Pos.iter xO p d), (Zpos (digits2_pos p) - 53).
    rewrite binary_round_aux_exact.
    + repeat split; [lia|]. rewrite Hvalue. f_equal. f_equal. lia.
    + rewrite Hdigits, Pos2Z.inj_add. lia.
    + lia.
Qed.

(** An integer below [2^53] is converted to binary64 without rounding. *)
Lemma float_of_int_exact (k : Z) :
  1 <= k < 2 ^ 53 -> float_is_int (float_of_int k) k = true.
Proof.
  intros Hk. destruct k as [|p|p]; try lia.
  unfold float_is_int, float_of_int.
  rewrite of_uint63_spec, Uint63.of_Z_spec.
  rewrite Z.mod_small
    by (split; [lia|]; apply Z.lt_trans with (2 ^ 53); [lia|reflexivity]).
  change (binary_normalize prec emax (Zpos p) 0 false)
    with (binary_round 53 1024 false p 0).
  destruct (binary_round_exact p ltac:(lia)) as (m & e & Hround & He & Hm).
  rewrite Hround. cbn [cond_Zopp].
  destruct (Z.leb_spec 0 e); apply Z.eqb_eq.
  - replace e with 0 in * by lia. simpl in Hm. lia.
  - exact Hm.
Qed.

(* ================================================================== *)
(** * Linear interpolation along one axis *)
(* ================================================================== *)

Section InterpolationFacts.
Context {Array Value X : Type}
        `{AbstractArray Array Value} `{Coordinate X} `{Arithmetic X Value}.

(** One axis [i], one coordinate [x] with lower neighbour [x0]: the
    two samples are read and combined. *)
Lemma interp_linear_one_axis (self : Array) (i : string) (y : Z -> Value)
    (x : X) (x0 : Z) :
  getitem self (ItemDict [(i, SubInt 0)]) = Ok (y 0) ->
  value_shape (y 0) = [] ->
  lower_neighbor self i x = Ok x0 ->
  getitem self (ItemDict [(i, SubInt x0)]) = Ok (y x0) ->
  getitem self (ItemDict [(i, SubInt (x0 + 1))]) = Ok (y (x0 + 1)) ->
  interp_linear self [(i, x)]
  = Ok (v_add (y x0) (v_mul (sub_int x x0) (v_sub (y (x0 + 1)) (y x0)))).
Proof.
  intros Horigin Hscalar Hx0 Hy0 Hy1.
  unfold interp_linear, origin_item. simpl map at 1.
  rewrite Horigin. simpl bind. rewrite Hscalar. simpl.
  rewrite Hx0. simpl. rewrite Hy0. simpl. rewrite Hy1. reflexivity.
Qed.

Lemma shape_getitem_one_axis (self : Array) (i : string) (n : Z) :
  shape_of self = [(i, n)] -> shape_getitem self i = Ok n.
Proof.
  intros Hshape. unfold shape_getitem. rewrite Hshape. simpl.
  now rewrite String.eqb_refl.
Qed.
End InterpolationFacts.

(** Integer indexing of an explicit array within its bounds. *)
Lemma array1_getitem_in_bounds (V : Type) (axis : string) (ndarray : list V)
    (default : V) (j : Z) :
  0 <= j < Z.of_nat (List.length ndarray) ->
  getitem (Explicit axis ndarray) (ItemDict [(axis, SubInt j)])
  = Ok (nth (Z.to_nat j) ndarray default).
Proof.
  intros Hj. unfold getitem, __getitem__. simpl.
  rewrite String.eqb_refl. unfold ndarray_getitem.
  destruct (Z.ltb_spec j 0) as [|_]; [lia|].
  destruct (Z.leb_spec 0 j) as [_|]; [|lia].
  destruct (Z.ltb_spec j (Z.of_nat (List.length ndarray))) as [_|]; [|lia].
  simpl. rewrite (nth_error_nth' ndarray default) by lia. reflexivity.
Qed.

(** ** Grid points *)






(** ** Neighbours and clamping *)

Lemma lt_zero_Q (x : Q) : lt_zero x = true <-> (x < 0)%Q.
Proof.
  simpl. destruct (Qle_bool 0 x) eqn:Hle; simpl.
  - apply Qle_bool_iff in Hle. split; [discriminate|].
    intros Hlt. exfalso. exact (Qlt_not_le _ _ Hlt Hle).
  - split; [intros _ | reflexivity].
    apply Qnot_le_lt. intros Hle'. apply Qle_bool_iff in Hle'. congruence.
Qed.

Lemma ge_int_Q (x : Q) (m : Z) : ge_int x m = true <-> (inject_Z m <= x)%Q.
Proof. simpl. apply Qle_bool_iff. Qed.

(** [int(x)] is the floor of a coordinate that is not negative. *)
Lemma int_of_Q_floor (x : Q) : (0 <= x)%Q -> int_of x = Ok (Qfloor x).
Proof.
  destruct x as [num den]. unfold Qle. simpl. intros Hnum.
  f_equal. apply Z.quot_div_nonneg; lia.
Qed.

Lemma Qfloor_bounds (x : Q) (m : Z) :
  (0 <= x)%Q -> (x < inject_Z m)%Q -> 0 <= Qfloor x < m.
Proof.
  intros Hlo Hhi. split.
  - change 0 with (Qfloor 0). now apply Qfloor_resp_le.
  - rewrite Zlt_Qlt. apply Qle_lt_trans with x; [apply Qfloor_le | assumption].
Qed.

(** The lower neighbour of a fractional coordinate on an axis of at least
    two samples. *)
Lemma lower_neighbor_Q
    (Array Value : Type) (HA : AbstractArray Array Value)
    (self : Array) (i : string) (n : Z) (x : Q) :
  shape_of self = [(i, n)] -> 2 <= n ->
  exists x0 : Z,
    lower_neighbor self i x = Ok x0
    /\ lower_neighbor_masked n x = x0
    /\ ((x < 0)%Q -> x0 = 0)
    /\ ((inject_Z (n - 1) <= x)%Q -> x0 = n - 2)
    /\ ((0 <= x)%Q -> (x < inject_Z (n - 1))%Q -> x0 = Qfloor x)
    /\ 0 <= x0 <= n - 2.
Proof.
  intros Hshape Hn. unfold lower_neighbor, lower_neighbor_masked.
  rewrite (shape_getitem_one_axis self i n Hshape).
  assert (Hpos : (0 < inject_Z (n - 1))%Q).
  { change 0%Q with (inject_Z 0). rewrite <- Zlt_Qlt. lia. }
  destruct (lt_zero x) eqn:Hbelow.
  - apply lt_zero_Q in Hbelow.
    assert (Habove : ge_int x (n - 1) = false).
    { destruct (ge_int x (n - 1)) eqn:Hge; [|reflexivity].
      apply ge_int_Q in Hge. exfalso.
      apply (Qlt_irrefl 0). apply Qlt_le_trans with (inject_Z (n - 1));
        [assumption|]. apply Qle_trans with x; [assumption|].
      now apply Qlt_le_weak. }
    rewrite Habove. exists 0. repeat split; try reflexivity; try lia.
    + intros Hge. exfalso. apply ge_int_Q in Hge. congruence.
    + intros Hnonneg _. exfalso. exact (Qlt_not_le _ _ Hbelow Hnonneg).
  - assert (Hnonneg : (0 <= x)%Q).
    { apply Qnot_lt_le. intros Hlt. apply lt_zero_Q in Hlt. congruence. }
    unfold bind. destruct (ge_int x (n - 1)) eqn:Habove.
    + apply ge_int_Q in Habove. exists (n - 2).
      repeat split; try reflexivity; try lia.
      * intros Hneg. exfalso. exact (Qlt_not_le _ _ Hneg Hnonneg).
      * intros _ Hlt. exfalso. exact (Qlt_not_le _ _ Hlt Habove).
    + assert (Hlt : (x < inject_Z (n - 1))%Q).
      { apply Qnot_le_lt. intros Hge. apply ge_int_Q in Hge. congruence. }
      pose proof (Qfloor_bounds x (n - 1) Hnonneg Hlt) as Hfloor.
      exists (Qfloor x). rewrite (int_of_Q_floor x Hnonneg).
      repeat split; try reflexivity; try lia.
      * intros Hneg. exfalso. exact (Qlt_not_le _ _ Hneg Hnonneg).
      * intros Hge. exfalso. exact (Qlt_not_le _ _ Hlt Hge).
Qed.

(** ** Every sample read lies within the array *)

Section NeighborFacts.
Context {Array Value X : Type}
        `{AbstractArray Array Value} `{Coordinate X} `{Arithmetic X Value}.

(** When every axis of [item] has its two neighbours within the array,
    the recursion reads the array only at indices within its bounds: it
    succeeds as soon as reading succeeds there. *)
Lemma interp_linear_recursive_within (self : Array) (item : dict X) :
  item <> [] ->
  (forall axis x, In (axis, x) item ->
     exists n x0, dict_get axis (shape_of self) = Some n
                  /\ lower_neighbor self axis x = Ok x0
                  /\ 0 <= x0 /\ x0 + 1 <= n - 1) ->
  forall base,
    (forall index, within_axes self item index ->
       exists v, getitem self (ItemDict (item_at item index base)) = Ok v) ->
    exists r, _interp_linear_recursive self item base = Ok r.
Proof.
  induction item as [|[axis x] item IH]; [contradiction|].
  intros _ Hentries base Hread.
  destruct (Hentries axis x (or_introl eq_refl))
    as (n & x0 & Hn & Hx0 & Hlo & Hhi).
  assert (Hwithin : forall j index,
            0 <= j < n -> within_axes self item index ->
            within_axes self ((axis, x) :: item) (j :: index)).
  { intros j index Hj Hindex. constructor; [|exact Hindex].
    exists n. split; [exact Hn | exact Hj]. }
  simpl. rewrite Hx0. simpl. destruct item as [|entry rest].
  - destruct (Hread [x0]) as [v0 Hv0]; [apply Hwithin; [lia|constructor]|].
    destruct (Hread [x0 + 1]) as [v1 Hv1];
      [apply Hwithin; [lia|constructor]|].
    change (item_at [(axis, x)] [x0] base)
      with (dict_set axis (SubInt x0) base) in Hv0.
    change (item_at [(axis, x)] [x0 + 1] base)
      with (dict_set axis (SubInt (x0 + 1)) base) in Hv1.
    rewrite Hv0. cbn [bind]. rewrite Hv1. cbn [bind].
    eexists. reflexivity.
  - assert (Hrest : forall j, 0 <= j < n ->
              exists r, _interp_linear_recursive self (entry :: rest)
                          (dict_set axis (SubInt j) base) = Ok r).
    { intros j Hj. apply IH; [discriminate| |].
      - intros axis' x' Hin. apply Hentries. now right.
      - intros index Hindex. apply (Hread (j :: index)).
        now apply Hwithin. }
    destruct (Hrest x0 ltac:(lia)) as [r0 Hr0].
    destruct (Hrest (x0 + 1) ltac:(lia)) as [r1 Hr1].
    rewrite Hr0. cbn [bind]. rewrite Hr1. cbn [bind]. eexists. reflexivity.
Qed.
End NeighborFacts.

(** The lower neighbour of a binary64 coordinate that is not a NaN, on
    an axis of at least two samples. *)
Lemma lower_neighbor_float
    (Array Value : Type) (HA : AbstractArray Array Value)
    (astype_int_invalid : float -> Z)
    (self : Array) (axis : string) (n : Z) (x : float) :
  dict_get axis (shape_of self) = Some n ->
  2 <= n <= 2 ^ 53 ->
  float_is_nan x = false ->
  exists x0 : Z,
    lower_neighbor (H0 := Coordinate_float astype_int_invalid) self axis x
    = Ok x0
    /\ lower_neighbor_masked (H0 := Coordinate_float astype_int_invalid) n x
       = x0
    /\ (PrimFloat.ltb x 0 = true -> x0 = 0)
    /\ (PrimFloat.leb (float_of_int (n - 1)) x = true -> x0 = n - 2)
    /\ (PrimFloat.ltb x 0 = false ->
        PrimFloat.leb (float_of_int (n - 1)) x = false ->
        float_floor x = Some x0)
    /\ 0 <= x0 /\ x0 + 1 <= n - 1.
Proof.
  intros Hshape Hn Hnan.
  pose proof (float_of_int_exact (n - 1) ltac:(lia)) as Hexact.
  unfold lower_neighbor, lower_neighbor_masked, shape_getitem.
  rewrite Hshape. cbn [lt_zero ge_int int_of floor_int Coordinate_float bind].
  destruct (float_neighbor_cases n x ltac:(lia) Hexact Hnan)
    as [[Hlt Hle]|[[Hlt Hle]|(Hlt & Hle & k & Hfloor & Hint & Hk)]];
    rewrite Hlt, Hle.
  - exists 0. repeat split; try reflexivity; try lia; discriminate.
  - exists (n - 2). repeat split; try reflexivity; try lia; discriminate.
  - exists k. rewrite Hint, Hfloor.
    assert (Hpow : 2 ^ 53 < 2 ^ 63) by reflexivity.
    destruct (Z.leb_spec (- 2 ^ 63) k); [|lia].
    destruct (Z.ltb_spec k (2 ^ 63)); [|lia].
    repeat split; try reflexivity; try lia; discriminate.
Qed.

(** C5 (as stated, refuted).  On an axis of a single sample the
    coordinate [-5] has the lower neighbour 0 and the upper neighbour 1,
    and reading the sample of index 1 is out of bounds.  And on an axis
    of three samples a NaN coordinate is neither below 0 nor at or above
    2: without axes of its own it reaches [int(x)], which raises, and no
    neighbour is found; as an element of a coordinate array it keeps
    what [astype(int)] makes of a NaN, on x86-64 the least 64-bit
    integer, which is no index of the array. *)
Lemma interp_linear_neighbors_refuted :
  (let A := Explicit "i" [7]%float in
   let coordinate := Coordinate_float (fun _ => - 2 ^ 63) in
   let x := (- 5)%float in
   shape_of A = [("i", 1)]
   /\ float_is_nan x = false
   /\ lower_neighbor (H0 := coordinate) A "i" x = Ok 0
   /\ getitem A (ItemDict [("i", SubInt (0 + 1))])
      = Raise (IndexError (IndexOutOfBounds 1 1))
   /\ interp_linear (H0 := coordinate) A [("i", x)]
      = Raise (IndexError (IndexOutOfBounds 1 1)))
  /\ (let B := Explicit "i" [10; 20; 40]%float in
      let coordinate := Coordinate_float (fun _ => - 2 ^ 63) in
      shape_of B = [("i", 3)]
      /\ float_is_nan nan = true
      /\ PrimFloat.ltb nan 0 = false
      /\ PrimFloat.leb (float_of_int (3 - 1)) nan = false
      /\ lower_neighbor (H0 := coordinate) B "i" nan
         = Raise (ValueError FloatNaNToInteger)
      /\ interp_linear (H0 := coordinate) B [("i", nan)]
         = Raise (ValueError FloatNaNToInteger)
      /\ lower_neighbor_masked (H0 := coordinate) 3 nan = - 2 ^ 63
      /\ getitem B (ItemDict [("i", SubInt (- 2 ^ 63))])
         = Raise (IndexError (IndexOutOfBounds (- 2 ^ 63) 3))).
Proof.
  split; cbv zeta; repeat split; vm_compute; reflexivity.
Qed.

(** C5 (amended).  Binary64 coordinates, on an array [A] of any shape.
    For each axis that [A] has, of a size [n] with [2 <= n <= 2^53]
    (so that [n - 1] is exact in binary64), and each coordinate [x]
    that is not a NaN, the lower neighbour [x0] is 0 when [x < 0],
    [n - 2] when [x >= n - 1] and [floor(x)] otherwise, whether [x] is a
    coordinate without axes or an element of a coordinate array; the
    upper neighbour is [x0 + 1], and both lie within [0, n - 1].  The
    last axis of the recursion combines the samples at these two
    neighbours as [y0 + (x - x0) * (y1 - y0)], for [x < 0] the line
    through the samples 0 and 1; so does [interp_linear] on a single
    axis.  And over any number of axes the recursion reads the array
    only at indices within its bounds: it succeeds as soon as reading
    succeeds there. *)
Theorem interp_linear_neighbors
    (Array Value : Type) (HA : AbstractArray Array Value)
    (HV : Arithmetic float Value)
    (astype_int_invalid : float -> Z) (A : Array) :
  let coordinate := Coordinate_float astype_int_invalid in
  (forall (axis : string) (n : Z) (x : float),
     dict_get axis (shape_of A) = Some n ->
     2 <= n <= 2 ^ 53 ->
     float_is_nan x = false ->
     exists x0 : Z,
       lower_neighbor (H0 := coordinate) A axis x = Ok x0
       /\ lower_neighbor_masked (H0 := coordinate) n x = x0
       /\ (PrimFloat.ltb x 0 = true -> x0 = 0)
       /\ (PrimFloat.leb (float_of_int (n - 1)) x = true -> x0 = n - 2)
       /\ (PrimFloat.ltb x 0 = false ->
           PrimFloat.leb (float_of_int (n - 1)) x = false ->
           float_floor x = Some x0)
       /\ 0 <= x0 /\ x0 + 1 <= n - 1
       /\ (forall (base : dict (subitem Array)) (y : Z -> Value),
             (forall j, 0 <= j < n ->
                getitem A (ItemDict (dict_set axis (SubInt j) base))
                = Ok (y j)) ->
             _interp_linear_recursive (H0 := coordinate) A [(axis, x)] base
             = Ok (v_add (y x0)
                         (v_mul (PrimFloat.sub x (float_of_int x0))
                                (v_sub (y (x0 + 1)) (y x0)))))
       /\ (forall y : Z -> Value,
             (forall j, 0 <= j < n ->
                getitem A (ItemDict [(axis, SubInt j)]) = Ok (y j)) ->
             value_shape (y 0) = [] ->
             interp_linear (H0 := coordinate) A [(axis, x)]
             = Ok (v_add (y x0)
                         (v_mul (PrimFloat.sub x (float_of_int x0))
                                (v_sub (y (x0 + 1)) (y x0))))))
  /\ (forall (item : dict float) (base : dict (subitem Array)),
        item <> [] ->
        (forall axis x, In (axis, x) item ->
           float_is_nan x = false
           /\ exists n, dict_get axis (shape_of A) = Some n
                        /\ 2 <= n <= 2 ^ 53) ->
        (forall index, within_axes A item index ->
           exists v, getitem A (ItemDict (item_at item index base)) = Ok v) ->
        exists r,
          _interp_linear_recursive (H0 := coordinate) A item base = Ok r).
Proof.
  intros coordinate. split.
  - intros axis n x Hshape Hn Hnan.
    destruct (lower_neighbor_float Array Value HA astype_int_invalid
                A axis n x Hshape Hn Hnan)
      as (x0 & Hx0 & Hmasked & Hbelow & Habove & Hinside & Hlo & Hhi).
    exists x0. repeat (split; [assumption|]). split.
    + intros base y Hget. cbn [_interp_linear_recursive].
      fold coordinate in Hx0. rewrite Hx0. cbn [bind].
      rewrite (Hget x0) by lia. cbn [bind].
      rewrite (Hget (x0 + 1)) by lia. reflexivity.
    + intros y Hget Hscalar.
      apply (interp_linear_one_axis (H0 := coordinate) A axis y x x0);
        try assumption; apply Hget; lia.
  - intros item base Hitem Hentries Hread.
    apply (interp_linear_recursive_within (H0 := coordinate) A item);
      try assumption.
    intros axis x Hin.
    destruct (Hentries axis x Hin) as (Hnan & n & Hshape & Hn).
    destruct (lower_neighbor_float Array Value HA astype_int_invalid
                A axis n x Hshape Hn Hnan)
      as (x0 & Hx0 & _ & _ & _ & _ & Hlo & Hhi).
    exists n, x0. repeat split; assumption.
Qed.

Lemma interp_linear_neighbors_witness :
  let A := Explicit "i" [10; 20; 40]%float in
  let coordinate := Coordinate_float (fun _ => - 2 ^ 63) in
  let x := (- 5)%float in
  PrimFloat.ltb x 0 = true
  /\ lower_neighbor (H0 := coordinate) A "i" x = Ok 0
  /\ interp_linear (H0 := coordinate) A [("i", x)] = Ok (- 40)%float.
Proof.
  intros A coordinate x. split; [reflexivity|].
  destruct (proj1 (interp_linear_neighbors (array1 float) float _ _
                     (fun _ => - 2 ^ 63) A) "i" 3 x)
    as (x0 & Hx0 & _ & Hbelow & _ & _ & _ & _ & _ & Hinterp).
  - reflexivity.
  - split; [lia | apply Z.leb_le; reflexivity].
  - reflexivity.
  - assert (Hzero : x0 = 0) by (apply Hbelow; reflexivity). subst x0.
    split; [exact Hx0|].
    refine (eq_trans
              (Hinterp (fun j => nth (Z.to_nat j) [10; 20; 40]%float 0%float)
                       _ eq_refl) _).
    + intros j Hj. apply array1_getitem_in_bounds. simpl. lia.
    + reflexivity.
Defined.

(* ================================================================== *)
(** * Seeded random samples *)
(* ================================================================== *)

Section RandomFacts.
Context {Ambient Raw Buffer Unit Generator ScalarArray OtherArray : Type}.
Variable randint : Z -> Z -> Ambient -> Z * Ambient.
Variable np_random_uniform :
  Buffer -> Buffer -> list Z -> Ambient -> Buffer * Ambient.
Variable default_rng : Z -> Generator.
Variable generator_uniform : Generator -> Buffer -> Buffer -> list Z -> Buffer.
Variable scalar_array : Raw -> ScalarArray.
Variable scalar_shape : ScalarArray -> Shape.
Variable ndarray_aligned : ScalarArray -> Shape -> res Buffer.
Variable common_unit : Buffer -> Buffer -> res (Buffer * Buffer * option Unit).
Variable scalar_array_of_buffer :
  Buffer -> option Unit -> list string -> ScalarArray.

Local Abbreviation random_uniform' :=
  (random_uniform np_random_uniform default_rng generator_uniform
     scalar_array scalar_shape ndarray_aligned common_unit
     scalar_array_of_buffer (OtherArray := OtherArray)).

(** With an [int] seed the draw ignores the ambient generators and
    leaves them as they are. *)
Lemma random_uniform_seeded start stop shape_random (seed : Z) (g h : Ambient) :
  fst (random_uniform' start stop shape_random (Some seed) g)
  = fst (random_uniform' start stop shape_random (Some seed) h)
  /\ snd (random_uniform' start stop shape_random (Some seed) g) = g.
Proof.
  unfold random_uniform.
  destruct (normalize_bound scalar_array start) as [start'|out];
    [|now split].
  destruct (normalize_bound scalar_array stop) as [stop'|out];
    [|now split].
  match goal with
  | |- context [match ?r with Ok _ => _ | Raise _ => _ end] => destruct r
  end; [|now split].
  destruct a as [shape [[low high] unit]]. now split.
Qed.

End RandomFacts.

Section RandomMixinFacts.
Context {Ambient Generator P : Type}.
Variable randint : Z -> Z -> Ambient -> Z * Ambient.
Variable default_rng : Z -> Generator.
Variable default_rng_entropy : Ambient -> Generator * Ambient.

(** After [__post_init__] the seed is an [int], and the parameters are
    as they were. *)
Lemma post_init_seed (self : random_object P) (g : Ambient) :
  seed (fst (__post_init__ randint self g)) <> None
  /\ parameters (fst (__post_init__ randint self g)) = parameters self.
Proof.
  unfold __post_init__. destruct (seed self) as [s|] eqn:Hseed.
  - simpl. split; congruence.
  - destruct (randint 0 (10 ^ 12) g). simpl. split; [discriminate|reflexivity].
Qed.

(** With an [int] seed, [_rng] is the generator of that seed and the
    ambient state is left alone. *)
Lemma rng_seeded (self : random_object P) (s : Z) (g : Ambient) :
  seed self = Some s ->
  _rng default_rng default_rng_entropy self g = (default_rng s, g).
Proof. intros Hseed. unfold _rng. now rewrite Hseed. Qed.
End RandomMixinFacts.

(** C6.  An object of any random-carrying class, with its parameters and
    its seed, and any draw over the parameters from a generator.
    - With the seed [None], construction draws one integer with
      [random.randint(0, 10 ** 12)] and stores it; with an integer seed
      it stores that seed and draws nothing.  The parameters are stored
      as they are.
    - From then on the seed is an integer: [__post_init__] would draw no
      more, and [_rng] is the generator of the stored seed, whatever the
      ambient state, which it leaves alone.
    - So the materialized array is the draw over the stored parameters
      from the generator of the stored seed: it does not depend on the
      ambient generators, which it leaves as they are, and two objects
      built with the same integer seed and the same parameters
      materialize the same array on every access.
    - For the uniform sample, whose draw is [random_uniform] on the
      stored seed: the same holds, and it draws nothing from
      [np.random.uniform]. *)
Theorem seeded_materialization
    (Ambient Raw Buffer Unit Generator ScalarArray OtherArray P R : Type)
    (randint : Z -> Z -> Ambient -> Z * Ambient)
    (np_random_uniform : Buffer -> Buffer -> list Z -> Ambient -> Buffer * Ambient)
    (default_rng : Z -> Generator)
    (default_rng_entropy : Ambient -> Generator * Ambient)
    (generator_uniform : Generator -> Buffer -> Buffer -> list Z -> Buffer)
    (scalar_array : Raw -> ScalarArray)
    (scalar_shape : ScalarArray -> Shape)
    (ndarray_aligned : ScalarArray -> Shape -> res Buffer)
    (common_unit : Buffer -> Buffer -> res (Buffer * Buffer * option Unit))
    (scalar_array_of_buffer : Buffer -> option Unit -> list string -> ScalarArray)
    (draw : P -> Generator -> R) :
  let construct {Q : Type} (p : Q) := construct randint p in
  let _rng := _rng default_rng default_rng_entropy (P := P) in
  let array := array default_rng default_rng_entropy draw in
  let uniform_array :=
    uniform_array np_random_uniform default_rng generator_uniform
      scalar_array scalar_shape ndarray_aligned common_unit
      scalar_array_of_buffer (OtherArray := OtherArray) in
  (forall (p : P) g,
     construct p None g
     = ({| parameters := p; seed := Some (fst (randint 0 (10 ^ 12) g)) |},
        snd (randint 0 (10 ^ 12) g)))
  /\ (forall (p : P) s g,
        construct p (Some s) g = ({| parameters := p; seed := Some s |}, g))
  /\ (forall (p : P) seed0 g,
        exists s,
          seed (fst (construct p seed0 g)) = Some s
          /\ parameters (fst (construct p seed0 g)) = p
          /\ (forall h, __post_init__ randint (fst (construct p seed0 g)) h
                        = (fst (construct p seed0 g), h))
          /\ (forall h, _rng (fst (construct p seed0 g)) h
                        = (default_rng s, h))
          /\ (forall h, array (fst (construct p seed0 g)) h
                        = (draw p (default_rng s), h)))
  /\ (forall (p : P) s g1 g2 h1 h2,
        fst (array (fst (construct p (Some s) g1)) h1)
        = fst (array (fst (construct p (Some s) g2)) h2))
  /\ (forall (p : bound Raw ScalarArray OtherArray
                  * bound Raw ScalarArray OtherArray * option Shape)
             seed0 g h1 h2,
        fst (uniform_array (fst (construct p seed0 g)) h1)
        = fst (uniform_array (fst (construct p seed0 g)) h2)
        /\ snd (uniform_array (fst (construct p seed0 g)) h1) = h1)
  /\ (forall (p : bound Raw ScalarArray OtherArray
                  * bound Raw ScalarArray OtherArray * option Shape)
             s g1 g2 h1 h2,
        fst (uniform_array (fst (construct p (Some s) g1)) h1)
        = fst (uniform_array (fst (construct p (Some s) g2)) h2)).
Proof.
  intros construct0 rng0 array0 uniform_array0.
  assert (Hconstruct : forall (Q : Type) (p : Q) seed0 g,
            exists s, fst (construct0 Q p seed0 g)
                      = {| parameters := p; seed := Some s |}).
  { intros Q p seed0 g. unfold construct0, construct, __post_init__.
    cbn [seed parameters]. destruct seed0 as [s|].
    - now exists s.
    - destruct (randint 0 (10 ^ 12) g) as [drawn g']. now exists drawn. }
  split; [|split; [|split; [|split; [|split]]]].
  - intros p g. unfold construct0, construct, __post_init__. cbn [seed].
    now destruct (randint 0 (10 ^ 12) g).
  - reflexivity.
  - intros p seed0 g. destruct (Hconstruct P p seed0 g) as [s Hs].
    exists s. rewrite Hs. repeat split.
  - reflexivity.
  - intros p seed0 g h1 h2.
    destruct (Hconstruct _ p seed0 g) as [s Hs]. rewrite Hs.
    unfold uniform_array0, uniform_array. cbn [parameters seed].
    destruct p as [[start stop] shape_random].
    apply random_uniform_seeded.
  - intros [[start stop] shape_random] s g1 g2 h1 h2.
    unfold uniform_array0, uniform_array, construct0, construct,
      __post_init__.
    cbn [parameters seed fst].
    apply random_uniform_seeded.
Qed.

(* ================================================================== *)
(** * Spectral matrices *)
(* ================================================================== *)

(** C8 (as stated, refuted).  A spectral matrix whose single row
    [wavelength] has the two components 1 and 2 is not square, and its
    [determinant] and [inverse] return [None]: no error is raised. *)
Lemma spectral_matrix_not_square_returns_None :
  let m : matrix Z := [[1; 2]] in
  is_square m = false
  /\ @determinant (matrix Z) Z m = Ok None
  /\ @inverse (matrix Z) (matrix Z) m = Ok None
  /\ (forall e, @determinant (matrix Z) Z m <> Raise e)
  /\ (forall e, @inverse (matrix Z) (matrix Z) m <> Raise e).
Proof. simpl. repeat split; intros; discriminate. Qed.

(** C8 (amended).  For the matrices of the specification, [determinant]
    and [inverse] give a value exactly when the matrix is square, and
    raise the dimension error when it is not.  The spectral matrices of
    this core are apart: for every spectral matrix, square or not,
    [determinant] and [inverse] return [None], and neither raises. *)
Theorem matrix_determinant_inverse
    (Scalar : Type) (det : list (list Scalar) -> Scalar)
    (inv : list (list Scalar) -> list (list Scalar))
    (SpectralMatrixArray SpectralScalar SpectralMatrix : Type) :
  (forall m : matrix Scalar,
     (is_square m = true ->
      matrix_determinant det m = Ok (det m)
      /\ matrix_inverse inv m = Ok (inv m))
     /\ (is_square m = false ->
         matrix_determinant det m = Raise (DimensionError NotSquare)
         /\ matrix_inverse inv m = Raise (DimensionError NotSquare))
     /\ ((exists d, matrix_determinant det m = Ok d) <-> is_square m = true)
     /\ ((exists r, matrix_inverse inv m = Ok r) <-> is_square m = true))
  /\ (forall self : SpectralMatrixArray,
        @determinant SpectralMatrixArray SpectralScalar self = Ok None
        /\ @inverse SpectralMatrixArray SpectralMatrix self = Ok None
        /\ (forall e, @determinant SpectralMatrixArray SpectralScalar self
                      <> Raise e)
        /\ (forall e, @inverse SpectralMatrixArray SpectralMatrix self
                      <> Raise e)).
Proof.
  split.
  - intros m. unfold matrix_determinant, matrix_inverse.
    destruct (is_square m); repeat split; try discriminate;
      try reflexivity; try (intros _; eexists; reflexivity);
      intros [v Hv]; discriminate.
  - intros self. repeat split; intros; discriminate.
Qed.

(* ================================================================== *)
(** * Broadcasting of any number of shapes *)
(* ================================================================== *)

Lemma compatible_broadcast_size (r s : Z) :
  compatible r s ->
  (r = broadcast_size r s \/ r = 1)
  /\ (s = broadcast_size r s \/ s = 1)
  /\ (broadcast_size r s = r \/ broadcast_size r s = s).
Proof.
  unfold compatible, broadcast_size. intros Hc.
  destruct (Z.eqb_spec r s), (Z.eqb_spec r 1); lia.
Qed.

(** Two dictionaries with the same keys in the same order and the same
    value under each key are equal. *)
Lemma dict_ext {V : Type} (d1 : dict V) : forall d2 : dict V,
  keys d1 = keys d2 -> NoDup (keys d1) ->
  (forall k, dict_get k d1 = dict_get k d2) -> d1 = d2.
Proof.
  induction d1 as [|[k v] d1 IH]; intros [|[k' v'] d2] Hkeys Hnd Hget;
    simpl in Hkeys; try discriminate; [reflexivity|].
  injection Hkeys as <- Hkeys. inversion Hnd as [|? ? Hnotin Hnd']; subst.
  pose proof (Hget k) as Hk. simpl in Hk. rewrite String.eqb_refl in Hk.
  injection Hk as <-. f_equal. apply IH; try assumption.
  intros k0. specialize (Hget k0). simpl in Hget.
  destruct (String.eqb_spec k0 k) as [Heq|]; [subst k0|assumption].
  rewrite (proj2 (dict_get_None k d1) Hnotin).
  rewrite Hkeys in Hnotin.
  now rewrite (proj2 (dict_get_None k d2) Hnotin).
Qed.

Lemma filter_none {A : Type} (f : A -> bool) (l : list A) :
  (forall x, In x l -> f x = false) -> filter f l = [].
Proof.
  induction l as [|x l IH]; intros Hf; simpl; [reflexivity|].
  rewrite (Hf x (or_introl eq_refl)). apply IH.
  intros y Hin. apply Hf. now right.
Qed.

Lemma last_app_nonempty {A : Type} (l l' : list A) (d : A) :
  l' <> [] -> last (l ++ l') d = last l' d.
Proof.
  intros Hne. induction l as [|x l IH]; [reflexivity|].
  rewrite <- IH. simpl.
  destruct (l ++ l') eqn:Happ; [|reflexivity].
  apply app_eq_nil in Happ. destruct Happ. contradiction.
Qed.

Lemma dict_contains_rev {V : Type} (k : string) (d : dict V) :
  NoDup (keys d) -> dict_contains k (rev d) = dict_contains k d.
Proof. intros Hnd. unfold dict_contains. now rewrite dict_get_rev. Qed.

Section BroadcastManyFacts.
Variable shapes : list Shape.

(** One shape merged into the running result. *)
Lemma merge_shape_step (result S r1 : Shape) :
  unique_keys S ->
  merge_shape shapes result S = Ok r1 ->
  (forall k,
     dict_get k r1
     = match dict_get k S with
       | Some s => Some (match dict_get k result with
                         | Some r => broadcast_size r s
                         | None => s
                         end)
       | None => dict_get k result
       end)
  /\ (forall k s r, dict_get k S = Some s -> dict_get k result = Some r ->
                    compatible r s).
Proof.
  unfold unique_keys, merge_shape. intros HS Hm.
  pose proof (NoDup_rev_keys _ HS) as HS'. split.
  - intros k. rewrite (merge_entries_lookup _ _ _ _ HS' Hm k).
    now rewrite dict_get_rev.
  - intros k s r Hs Hr.
    apply (merge_entries_compatible _ _ _ _ HS' Hm k); [|assumption].
    now rewrite dict_get_rev.
Qed.

Lemma broadcastable_to_refl (S : Shape) : broadcastable_to S S.
Proof. intros k s Hs. eauto. Qed.

Lemma broadcastable_to_trans (S R T : Shape) :
  broadcastable_to S R -> broadcastable_to R T -> broadcastable_to S T.
Proof.
  intros HSR HRT k s Hs.
  destruct (HSR k s Hs) as (r & Hr & Hsr).
  destruct (HRT k r Hr) as (t & Ht & Hrt).
  exists t. split; [assumption|]. lia.
Qed.

(** The outer loop: whatever was in the result, and every shape merged,
    can be broadcast to the final result; and every size of the final
    result was in the result or in one of the shapes. *)
Lemma merge_shapes_contract (l : list Shape) : forall result r',
  Forall unique_keys l ->
  for_each (merge_shape shapes) l result = Ok r' ->
  broadcastable_to result r'
  /\ (forall S, In S l -> broadcastable_to S r')
  /\ (forall k v, dict_get k r' = Some v ->
        dict_get k result = Some v
        \/ exists S, In S l /\ dict_get k S = Some v).
Proof.
  induction l as [|S l IH]; intros result r' Hu Hloop.
  - simpl in Hloop. injection Hloop as <-.
    split; [apply broadcastable_to_refl|]. split; [intros S []|]. now left.
  - apply for_each_cons_Ok in Hloop as (r1 & Hm & Hloop).
    inversion Hu as [|? ? HS Hl]; subst.
    destruct (merge_shape_step result S r1 HS Hm) as [Hlook Hcomp].
    destruct (IH r1 r' Hl Hloop) as (Hb1 & HbS & Hatt).
    assert (Hres : broadcastable_to result r1).
    { intros k r Hr. rewrite (Hlook k), Hr.
      destruct (dict_get k S) as [s|] eqn:Hs; [|eauto].
      eexists. split; [reflexivity|].
      apply (compatible_broadcast_size r s). now apply (Hcomp k). }
    assert (HS1 : broadcastable_to S r1).
    { intros k s Hs. rewrite (Hlook k), Hs.
      destruct (dict_get k result) as [r|] eqn:Hr; [|eauto].
      eexists. split; [reflexivity|].
      apply (compatible_broadcast_size r s). now apply (Hcomp k). }
    split; [exact (broadcastable_to_trans _ _ _ Hres Hb1)|]. split.
    + intros T [<-|HT]; [exact (broadcastable_to_trans _ _ _ HS1 Hb1)|].
      now apply HbS.
    + intros k v Hv. destruct (Hatt k v Hv) as [Hv1|(T & HT & HvT)].
      * rewrite (Hlook k) in Hv1.
        destruct (dict_get k S) as [s|] eqn:Hs.
        -- destruct (dict_get k result) as [r|] eqn:Hr.
           ++ injection Hv1 as <-.
              destruct (compatible_broadcast_size r s (Hcomp k s r Hs Hr))
                as (_ & _ & [->| ->]).
              ** now left.
              ** right. exists S. split; [now left | assumption].
           ++ injection Hv1 as <-. right. exists S.
              split; [now left | assumption].
        -- now left.
      * right. exists T. split; [now right | assumption].
Qed.

(** The outer loop succeeds when the running result and the shapes to
    merge are compatible with each other. *)
Lemma merge_shapes_succeed (l : list Shape) : forall result,
  Forall unique_keys l ->
  (forall S T, In S l -> In T l -> forall k s t,
     dict_get k S = Some s -> dict_get k T = Some t -> compatible s t) ->
  (forall k r, dict_get k result = Some r ->
     forall T, In T l -> forall t, dict_get k T = Some t -> compatible r t) ->
  exists r', for_each (merge_shape shapes) l result = Ok r'.
Proof.
  induction l as [|S l IH]; intros result Hu Hpair Hres.
  - simpl. eauto.
  - inversion Hu as [|? ? HS Hl]; subst.
    destruct (merge_entries_succeeds shapes (rev S) result
                (NoDup_rev_keys _ HS)) as [r1 Hm].
    { intros k s r Hs Hr. rewrite dict_get_rev in Hs by exact HS.
      apply (Hres k r Hr S); [now left | assumption]. }
    fold (merge_shape shapes result S) in Hm.
    change (for_each (merge_shape shapes) (S :: l) result)
      with (bind (merge_shape shapes result S)
                 (for_each (merge_shape shapes) l)).
    rewrite Hm. simpl.
    destruct (merge_shape_step result S r1 HS Hm) as [Hlook Hcomp].
    apply IH; [assumption | |].
    + intros S' T HS' HT. apply Hpair; now right.
    + intros k v Hv T HT t Ht. rewrite (Hlook k) in Hv.
      destruct (dict_get k S) as [s|] eqn:Hs.
      * assert (HsT : compatible s t)
          by (apply (Hpair S T (or_introl eq_refl) (or_intror HT) k);
              assumption).
        destruct (dict_get k result) as [r|] eqn:Hr.
        -- injection Hv as <-.
           destruct (compatible_broadcast_size r s (Hcomp k s r Hs Hr))
             as (_ & _ & [->| ->]); [|assumption].
           apply (Hres k r Hr T); [now right | assumption].
        -- now injection Hv as <-.
      * apply (Hres k v Hv T); [now right | assumption].
Qed.
End BroadcastManyFacts.

(** What [merge_axis] does to the keys, and to membership. *)
Lemma merge_axis_keys shapes result axis size r1 :
  merge_axis shapes result (axis, size) = Ok r1 ->
  keys r1 = (if dict_contains axis result then keys result
             else keys result ++ [axis])
  /\ forall k, k <> axis -> dict_contains k r1 = dict_contains k result.
Proof.
  intros Hm. split.
  - unfold merge_axis in Hm. unfold dict_contains.
    destruct (dict_get axis result) as [r|] eqn:Hget.
    + assert (Hin : In axis (keys result)).
      { destruct (in_dec string_dec axis (keys result)) as [|Hn];
          [assumption|]. apply dict_get_None in Hn. congruence. }
      destruct (r =? size); [now injection Hm as <-|].
      destruct (size =? 1); [now injection Hm as <-|].
      destruct (r =? 1); [|discriminate]. injection Hm as <-.
      now apply keys_dict_set_present.
    + injection Hm as <-. apply dict_get_None in Hget.
      rewrite dict_set_fresh by assumption. apply keys_app.
  - intros k Hne. unfold dict_contains.
    rewrite (merge_axis_lookup shapes _ _ _ _ Hm k).
    destruct (String.eqb_spec k axis); [contradiction | reflexivity].
Qed.

Lemma merge_entries_keys shapes (l : list (string * Z)) : forall result r',
  NoDup (keys l) ->
  for_each (merge_axis shapes) l result = Ok r' ->
  keys r' = keys result
            ++ filter (fun k => negb (dict_contains k result)) (keys l).
Proof.
  induction l as [|[axis size] l IH]; intros result r' Hnd Hloop.
  - simpl in *. injection Hloop as <-. now rewrite app_nil_r.
  - apply for_each_cons_Ok in Hloop as (r1 & Hm & Hloop).
    inversion Hnd as [|? ? Hnotin Hnd']; subst.
    destruct (merge_axis_keys _ _ _ _ _ Hm) as [Hkeys Hmem].
    rewrite (IH _ _ Hnd' Hloop), Hkeys. simpl.
    assert (Hfilter : filter (fun k => negb (dict_contains k r1)) (keys l)
                      = filter (fun k => negb (dict_contains k result))
                               (keys l)).
    { apply filter_ext_in. intros k Hin. rewrite Hmem; [reflexivity|].
      intros ->. contradiction. }
    rewrite Hfilter.
    destruct (dict_contains axis result); simpl; [reflexivity|].
    now rewrite <- app_assoc.
Qed.

(** The axes of the broadcast of two shapes, in order. *)
Lemma broadcast_pair_keys (A B r : Shape) :
  unique_keys A -> unique_keys B ->
  broadcast_shapes [A; B] = Ok r ->
  keys r = filter (fun k => negb (dict_contains k A)) (keys B) ++ keys A.
Proof.
  unfold unique_keys. intros HA HB Hr.
  unfold broadcast_shapes in Hr. apply bind_Ok in Hr as (r2 & Hloop & Hr).
  injection Hr as <-.
  apply for_each_cons_Ok in Hloop as (r1 & HmA & Hloop).
  apply for_each_cons_Ok in Hloop as (r2' & HmB & Hloop).
  simpl in Hloop. injection Hloop as ->.
  unfold merge_shape in HmA, HmB.
  rewrite merge_entries_fresh in HmA by (simpl; now apply NoDup_rev_keys).
  simpl in HmA. injection HmA as <-.
  assert (Hnd2 : NoDup (keys r2)).
  { apply (merge_entries_NoDup _ _ _ _ HmB). now apply NoDup_rev_keys. }
  rewrite dict_of_items_unique by now apply NoDup_rev_keys.
  rewrite keys_rev.
  rewrite (merge_entries_keys _ _ _ _ (NoDup_rev_keys _ HB) HmB).
  rewrite !keys_rev, rev_app_distr, rev_involutive, filter_rev, rev_involutive.
  f_equal. apply filter_ext. intros k. now rewrite dict_contains_rev.
Qed.

(** What a successful [broadcast_shapes] returns, for the theorems below. *)
Lemma broadcast_shapes_result (shapes : list Shape) (r : Shape) :
  Forall unique_keys shapes ->
  broadcast_shapes shapes = Ok r ->
  unique_keys r
  /\ (forall S, In S shapes -> broadcastable_to S r)
  /\ (forall k v, dict_get k r = Some v ->
        exists S, In S shapes /\ dict_get k S = Some v).
Proof.
  intros Hu Hr. pose proof (broadcast_shapes_unique_keys _ _ Hr) as Hnd.
  split; [exact Hnd|].
  unfold broadcast_shapes in Hr. apply bind_Ok in Hr as (r2 & Hloop & Hr).
  injection Hr as <-.
  assert (Hnd2 : NoDup (keys r2)).
  { apply (merge_shapes_NoDup _ _ _ _ Hloop). constructor. }
  assert (Hget : forall k, dict_get k (dict_of_items (rev r2)) = dict_get k r2).
  { intros k. rewrite dict_of_items_unique by now apply NoDup_rev_keys.
    now apply dict_get_rev. }
  destruct (merge_shapes_contract shapes shapes [] r2 Hu Hloop)
    as (_ & Hb & Hatt).
  split.
  - intros S HS k s Hs. rewrite Hget. now apply (Hb S HS).
  - intros k v Hv. rewrite Hget in Hv.
    destruct (Hatt k v Hv) as [Hempty|Hin]; [discriminate | exact Hin].
Qed.

(** X1.  When [broadcast_shapes] succeeds on shapes with unique keys,
    its result has unique keys, every input shape can be broadcast to
    it (each axis of each input is an axis of the result, with the same
    size unless the input's size is 1), and every size of the result is
    the size of that axis in one of the inputs. *)
Theorem broadcast_shapes_common_shape (shapes : list Shape) (r : Shape) :
  Forall unique_keys shapes ->
  broadcast_shapes shapes = Ok r ->
  unique_keys r
  /\ (forall S, In S shapes -> broadcastable_to S r)
  /\ (forall k v, dict_get k r = Some v ->
        exists S, In S shapes /\ dict_get k S = Some v).
Proof.
  intros Hu Hr. exact (broadcast_shapes_result shapes r Hu Hr).
Qed.

Lemma broadcast_shapes_common_shape_witness :
  let shapes := [[("x", 3); ("y", 1)]; [("y", 4); ("z", 2)]; [("z", 1)]] in
  Forall unique_keys shapes
  /\ broadcast_shapes shapes = Ok [("z", 2); ("x", 3); ("y", 4)]
  /\ (forall S, In S shapes ->
        broadcastable_to S [("z", 2); ("x", 3); ("y", 4)]).
Proof.
  intros shapes.
  assert (Hu : Forall unique_keys shapes).
  { repeat constructor; simpl; intuition discriminate. }
  split; [exact Hu|]. split; [reflexivity|].
  exact (proj1 (proj2 (broadcast_shapes_common_shape shapes _ Hu eq_refl))).
Defined.

(** X2.  On shapes with unique keys, [broadcast_shapes] succeeds exactly
    when any two of the shapes have compatible sizes on every axis they
    share; and whenever it fails, it raises the [ValueError] that carries
    all the shapes of the call, whichever pair is in conflict. *)
Theorem broadcast_shapes_succeeds_iff (shapes : list Shape) :
  Forall unique_keys shapes ->
  ((exists r, broadcast_shapes shapes = Ok r) <-> pairwise_compatible shapes)
  /\ (forall e, broadcast_shapes shapes = Raise e ->
        e = ValueError (ShapesNotCompatible shapes)).
Proof.
  intros Hu. split; [split|].
  - intros [r Hr] S T HS HT k s t Hs Ht.
    destruct (broadcast_shapes_result shapes r Hu Hr) as (_ & Hb & _).
    destruct (Hb S HS k s Hs) as (v & Hv & Hsv).
    destruct (Hb T HT k t Ht) as (v' & Hv' & Htv).
    rewrite Hv in Hv'. injection Hv' as <-. unfold compatible. lia.
  - intros Hpair.
    destruct (merge_shapes_succeed shapes shapes [] Hu Hpair) as [r2 Hloop].
    { intros k r Hempty. discriminate. }
    unfold broadcast_shapes. rewrite Hloop. simpl. eauto.
  - apply broadcast_shapes_raises.
Qed.

Lemma broadcast_shapes_succeeds_iff_witness :
  let shapes := [[("x", 3); ("y", 1)]; [("y", 4)]; [("y", 5); ("z", 2)]] in
  Forall unique_keys shapes
  /\ ~ pairwise_compatible shapes
  /\ broadcast_shapes shapes = Raise (ValueError (ShapesNotCompatible shapes)).
Proof.
  intros shapes.
  assert (Hu : Forall unique_keys shapes).
  { repeat constructor; simpl; intuition discriminate. }
  destruct (broadcast_shapes_succeeds_iff shapes Hu) as [Hiff Hraise].
  split; [exact Hu|]. split; [|reflexivity].
  intros Hpair. destruct (proj2 Hiff Hpair) as [r Hr]. discriminate.
Defined.

(** X3.  The axes of the broadcast of two shapes [A] and [B], in order:
    first the axes that only [B] has, in the order of [B], then the axes
    of [A], in the order of [A].  So the first shape keeps its axes
    trailing and in place. *)
Theorem broadcast_shapes_axis_order (A B r : Shape) :
  unique_keys A -> unique_keys B ->
  broadcast_shapes [A; B] = Ok r ->
  keys r = filter (fun k => negb (dict_contains k A)) (keys B) ++ keys A
  /\ (forall k, In k (keys r) <-> In k (keys A) \/ In k (keys B))
  /\ (A <> [] -> forall d, last (keys r) d = last (keys A) d).
Proof.
  intros HA HB Hr. pose proof (broadcast_pair_keys A B r HA HB Hr) as Hkeys.
  split; [exact Hkeys|]. split.
  - intros k. rewrite Hkeys, in_app_iff, filter_In. unfold dict_contains.
    destruct (dict_get k A) as [a|] eqn:Hka.
    + assert (Hin : In k (keys A)).
      { change k with (fst (k, a)). apply in_map.
        now apply dict_get_In. }
      simpl. tauto.
    + apply dict_get_None in Hka. simpl. tauto.
  - intros Hne d. rewrite Hkeys. apply last_app_nonempty.
    destruct A; [contradiction | discriminate].
Qed.

Lemma broadcast_shapes_axis_order_witness :
  let A := [("x", 3); ("y", 1)] in
  let B := [("t", 7); ("y", 4); ("z", 2)] in
  unique_keys A /\ unique_keys B
  /\ broadcast_shapes [A; B] = Ok [("t", 7); ("z", 2); ("x", 3); ("y", 4)]
  /\ keys [("t", 7); ("z", 2); ("x", 3); ("y", 4)] = ["t"; "z"] ++ keys A.
Proof.
  intros A B.
  assert (HA : unique_keys A) by solve_unique_keys.
  assert (HB : unique_keys B) by solve_unique_keys.
  split; [exact HA|]. split; [exact HB|]. split; [reflexivity|].
  exact (proj1 (broadcast_shapes_axis_order A B _ HA HB eq_refl)).
Defined.

(** X4.  Broadcasting a shape [A] with a shape [B] that can already be
    broadcast to [A] returns [A] itself, axes, sizes and order: in
    particular with the empty shape, and with [A] again. *)
Theorem broadcast_shapes_absorbs (A B : Shape) :
  unique_keys A -> unique_keys B ->
  broadcastable_to B A ->
  broadcast_shapes [A; B] = Ok A.
Proof.
  intros HA HB Hb.
  destruct (broadcast_pair A B HA HB) as [Hok Hlook].
  destruct (proj2 Hok) as [r Hr].
  { intros k a b Ha Hb'. destruct (Hb k b Hb') as (a' & Ha' & Hba).
    rewrite Ha in Ha'. injection Ha' as <-. unfold compatible. lia. }
  assert (Heq : r = A); [|subst r; exact Hr]. apply dict_ext.
  - rewrite (broadcast_pair_keys A B r HA HB Hr).
    rewrite filter_none; [reflexivity|].
    intros k Hin. unfold dict_contains.
    destruct (dict_get k B) as [b|] eqn:Hkb.
    + destruct (Hb k b Hkb) as (a & Ha & _). now rewrite Ha.
    + apply dict_get_None in Hkb. contradiction.
  - exact (broadcast_shapes_unique_keys _ _ Hr).
  - intros k. rewrite (Hlook r Hr k).
    destruct (dict_get k B) as [b|] eqn:Hkb; [|reflexivity].
    destruct (Hb k b Hkb) as (a & Ha & Hba). rewrite Ha. f_equal.
    unfold broadcast_size.
    destruct (Z.eqb_spec a b), (Z.eqb_spec a 1); lia.
Qed.

Lemma broadcast_shapes_absorbs_witness :
  let A := [("x", 3); ("y", 4)] in
  let B := [("y", 1)] in
  unique_keys A /\ unique_keys B /\ broadcastable_to B A
  /\ broadcast_shapes [A; B] = Ok A.
Proof.
  intros A B.
  assert (HA : unique_keys A) by solve_unique_keys.
  assert (HB : unique_keys B) by solve_unique_keys.
  assert (Hb : broadcastable_to B A).
  { intros k s. simpl. destruct (String.eqb_spec k "y") as [->|];
      [|discriminate]. intros [= <-]. exists 4. split; [reflexivity|].
    now right. }
  split; [exact HA|]. split; [exact HB|]. split; [exact Hb|].
  exact (broadcast_shapes_absorbs A B HA HB Hb).
Defined.



(* ================================================================== *)
(** * Enumeration of the indices of a shape *)
(* ================================================================== *)

Lemma py_range_In (n i : Z) : In i (py_range n) <-> 0 <= i < n.
Proof.
  unfold py_range. rewrite in_map_iff. split.
  - intros (j & <- & Hj). apply in_seq in Hj. lia.
  - intros Hi. exists (Z.to_nat i). split; [lia|]. apply in_seq. lia.
Qed.

Lemma NoDup_map_injective {A B : Type} (f : A -> B) (l : list A) :
  (forall x y, f x = f y -> x = y) -> NoDup l -> NoDup (map f l).
Proof.
  intros Hinj Hnd. induction Hnd as [|x l Hnotin Hnd IH]; simpl;
    constructor; [|assumption].
  intros Hin. apply in_map_iff in Hin as (y & Hxy & Hy).
  apply Hinj in Hxy. subst y. contradiction.
Qed.

Lemma py_range_NoDup (n : Z) : NoDup (py_range n).
Proof.
  unfold py_range. apply NoDup_map_injective.
  - intros x y Hxy. lia.
  - apply seq_NoDup.
Qed.

Lemma py_range_length (n : Z) :
  0 <= n -> Z.of_nat (List.length (py_range n)) = n.
Proof. intros Hn. unfold py_range. rewrite length_map, length_seq. lia. Qed.

Lemma NoDup_flat_map {A B : Type} (f : A -> list B) (l : list A) :
  NoDup l ->
  (forall x, In x l -> NoDup (f x)) ->
  (forall x y b, In x l -> In y l -> In b (f x) -> In b (f y) -> x = y) ->
  NoDup (flat_map f l).
Proof.
  induction l as [|x l IH]; intros Hnd Hf Hdisjoint; simpl; [constructor|].
  inversion Hnd as [|? ? Hnotin Hnd']; subst.
  apply NoDup_app.
  - apply Hf. now left.
  - apply IH; [assumption | |].
    + intros y Hy. apply Hf. now right.
    + intros y z b Hy Hz. apply Hdisjoint; now right.
  - intros b Hbx Hbl. apply in_flat_map in Hbl as (y & Hy & Hby).
    assert (x = y) by (apply (Hdisjoint x y b); auto using in_eq, in_cons).
    subst y. contradiction.
Qed.

Lemma multi_indices_In (dims : list Z) : forall index,
  In index (multi_indices dims)
  <-> Forall2 (fun i n => 0 <= i < n) index dims.
Proof.
  induction dims as [|n dims IH]; intros index; simpl.
  - split.
    + intros [<-|[]]. constructor.
    + intros Hf. inversion Hf. now left.
  - rewrite in_flat_map. split.
    + intros (i & Hi & Hin). apply in_map_iff in Hin as (rest & <- & Hrest).
      constructor; [now apply py_range_In | now apply IH].
    + intros Hf. inversion Hf as [|i n' rest dims' Hi Hrest]; subst.
      exists i. split; [now apply py_range_In|].
      apply in_map. now apply IH.
Qed.

Lemma multi_indices_NoDup (dims : list Z) : NoDup (multi_indices dims).
Proof.
  induction dims as [|n dims IH]; simpl.
  - repeat constructor. intros [].
  - apply NoDup_flat_map.
    + apply py_range_NoDup.
    + intros i _. apply NoDup_map_injective; [|assumption].
      intros x y Hxy. now injection Hxy.
    + intros i j index _ _ Hi Hj.
      apply in_map_iff in Hi as (x & <- & _).
      apply in_map_iff in Hj as (y & Hy & _). now injection Hy.
Qed.

Lemma multi_indices_length (dims : list Z) :
  Forall (fun n => 0 <= n) dims ->
  Z.of_nat (List.length (multi_indices dims)) = fold_right Z.mul 1 dims.
Proof.
  induction dims as [|n dims IH]; intros Hdims; simpl; [reflexivity|].
  inversion Hdims as [|? ? Hn Hdims']; subst.
  assert (Hlen : forall l : list Z,
            List.length (flat_map (fun i => map (cons i) (multi_indices dims)) l)
            = (List.length l * List.length (multi_indices dims))%nat).
  { induction l as [|i l IHl]; simpl; [reflexivity|].
    now rewrite length_app, length_map, IHl. }
  rewrite Hlen, Nat2Z.inj_mul, (IH Hdims'), (py_range_length n Hn).
  reflexivity.
Qed.

(** Removing the ignored axes one by one leaves the axes that are not
    ignored. *)
Lemma dict_pop_filter (axis : string) (shape : Shape) :
  NoDup (keys shape) ->
  (if dict_contains axis shape then dict_pop axis shape else shape)
  = filter (fun entry => negb (String.eqb (fst entry) axis)) shape.
Proof.
  unfold dict_contains. induction shape as [|[k n] shape IH]; intros Hnd; simpl.
  - reflexivity.
  - inversion Hnd as [|? ? Hnotin Hnd']; subst.
    rewrite (String.eqb_sym k axis).
    destruct (String.eqb_spec axis k) as [->|Hne]; simpl.
    + symmetry. apply forallb_filter_id.
      apply forallb_forall. intros [k' n'] Hin. simpl.
      destruct (String.eqb_spec k' k) as [->|]; [|reflexivity].
      exfalso. apply Hnotin. change k with (fst (k, n')). now apply in_map.
    + specialize (IH Hnd').
      destruct (dict_get axis shape); simpl in IH; now rewrite <- IH.
Qed.

Lemma NoDup_keys_filter (f : string * Z -> bool) (shape : Shape) :
  NoDup (keys shape) -> NoDup (keys (filter f shape)).
Proof.
  induction shape as [|[k n] shape IH]; intros Hnd; simpl; [constructor|].
  inversion Hnd as [|? ? Hnotin Hnd']; subst.
  destruct (f (k, n)); simpl; [|now apply IH].
  constructor; [|now apply IH].
  intros Hin. apply Hnotin. unfold keys in *.
  apply in_map_iff in Hin as (entry & Hfst & Hin).
  apply filter_In in Hin as [Hin _]. rewrite <- Hfst. now apply in_map.
Qed.

Lemma pop_ignored_axes (axis_ignored : list string) : forall shape : Shape,
  NoDup (keys shape) ->
  fold_left (fun shape axis =>
               if dict_contains axis shape then dict_pop axis shape
               else shape) axis_ignored shape
  = axes_kept shape axis_ignored.
Proof.
  unfold axes_kept.
  induction axis_ignored as [|axis rest IH]; intros shape Hnd; simpl.
  - symmetry. apply forallb_filter_id.
    apply forallb_forall. reflexivity.
  - rewrite dict_pop_filter by assumption.
    rewrite IH by now apply NoDup_keys_filter.
    clear. induction shape as [|[k n] shape IHs]; simpl; [reflexivity|].
    destruct (String.eqb k axis); simpl; [assumption|].
    destruct (existsb (String.eqb k) rest); simpl; now rewrite IHs.
Qed.

Lemma keys_combine (ks : list string) (index : list Z) :
  List.length index = List.length ks -> keys (combine ks index) = ks.
Proof.
  revert index. induction ks as [|k ks IH]; intros [|i index] Hlen;
    simpl in *; try discriminate; [reflexivity|].
  f_equal. apply IH. lia.
Qed.

Lemma within_of_index (shape : Shape) : forall index,
  Forall2 (fun i n => 0 <= i < n) index (map snd shape) ->
  within (combine (keys shape) index) shape.
Proof.
  induction shape as [|[k n] shape IH]; intros index Hf;
    inversion Hf; subst; simpl; constructor; auto.
  now apply IH.
Qed.

Lemma within_to_index (shape : Shape) : forall index : dict Z,
  within index shape ->
  index = combine (keys shape) (map snd index)
  /\ Forall2 (fun i n => 0 <= i < n) (map snd index) (map snd shape).
Proof.
  induction shape as [|[k n] shape IH]; intros index Hw;
    inversion Hw as [|[k' i] ? rest ? [Hk Hi] Hrest]; subst; simpl in *.
  - split; [reflexivity | constructor].
  - destruct (IH rest Hrest) as [Heq Hf]. subst k'. split.
    + now rewrite <- Heq.
    + now constructor.
Qed.

Lemma NoDup_map_injective_in {A B : Type} (f : A -> B) (l : list A) :
  (forall x y, In x l -> In y l -> f x = f y -> x = y) ->
  NoDup l -> NoDup (map f l).
Proof.
  intros Hinj Hnd. induction Hnd as [|x l Hnotin Hnd IH]; simpl;
    constructor.
  - intros Hin. apply in_map_iff in Hin as (y & Hxy & Hy).
    assert (y = x) by (apply Hinj; auto using in_eq, in_cons).
    subst y. contradiction.
  - apply IH. intros y z Hy Hz. apply Hinj; now right.
Qed.

Lemma snd_combine (ks : list string) : forall index : list Z,
  List.length index = List.length ks -> map snd (combine ks index) = index.
Proof.
  induction ks as [|k ks IH]; intros [|i index] Hlen; simpl in *;
    try discriminate; [reflexivity|].
  f_equal. apply IH. lia.
Qed.

(** What [ndindex] yields, in terms of the axes that are kept. *)
Lemma ndindex_kept (shape : Shape) (axis_ignored : axis_arg) :
  unique_keys shape ->
  (forall k n, In (k, n) shape -> 0 <= n) ->
  let kept := axes_kept shape (axis_list axis_ignored) in
  unique_keys kept
  /\ Forall (fun n => 0 <= n) (map snd kept)
  /\ ndindex shape axis_ignored
     = Some (map (combine (keys kept)) (multi_indices (map snd kept))).
Proof.
  intros Hu Hsizes kept.
  assert (Hkept : unique_keys kept) by now apply NoDup_keys_filter.
  assert (Hdims : Forall (fun n => 0 <= n) (map snd kept)).
  { apply Forall_forall. intros n Hn.
    apply in_map_iff in Hn as ([k n'] & <- & Hin).
    apply filter_In in Hin as [Hin _]. exact (Hsizes k n' Hin). }
  split; [exact Hkept|]. split; [exact Hdims|].
  unfold ndindex. rewrite pop_ignored_axes by exact Hu. fold kept.
  unfold np_ndindex.
  assert (Hall : forallb (fun n => 0 <=? n) (map snd kept) = true).
  { apply forallb_forall. intros n Hn. apply Z.leb_le.
    exact (proj1 (Forall_forall _ _) Hdims n Hn). }
  rewrite Hall. simpl. f_equal. apply map_ext_in. intros index Hin.
  apply dict_of_items_unique.
  apply multi_indices_In, Forall2_length in Hin.
  rewrite keys_combine; [exact Hkept|].
  rewrite Hin. unfold keys. now rewrite !length_map.
Qed.

(** X6.  For a shape with unique axis names and sizes that are not
    negative, [ndindex] yields every coordinate mapping over the axes
    that are not ignored, each exactly once: a dictionary is yielded if
    and only if it has exactly those axes, in the order of the shape,
    with each coordinate at least 0 and below the size of its axis. *)
Theorem ndindex_enumerates (shape : Shape) (axis_ignored : axis_arg) :
  unique_keys shape ->
  (forall k n, In (k, n) shape -> 0 <= n) ->
  exists yielded,
    ndindex shape axis_ignored = Some yielded
    /\ NoDup yielded
    /\ forall index,
         In index yielded
         <-> within index (axes_kept shape (axis_list axis_ignored)).
Proof.
  intros Hu Hsizes.
  destruct (ndindex_kept shape axis_ignored Hu Hsizes) as (Hkept & _ & Hnd).
  set (kept := axes_kept shape (axis_list axis_ignored)) in *.
  eexists. split; [exact Hnd|]. split.
  - apply NoDup_map_injective_in; [|apply multi_indices_NoDup].
    intros x y Hx Hy Hxy.
    apply multi_indices_In, Forall2_length in Hx, Hy.
    rewrite <- (snd_combine (keys kept) x), <- (snd_combine (keys kept) y);
      [now rewrite Hxy | |];
      unfold keys; rewrite length_map in *; congruence.
  - intros index. rewrite in_map_iff. split.
    + intros (x & <- & Hx). apply within_of_index.
      now apply multi_indices_In.
    + intros Hw. destruct (within_to_index kept index Hw) as [Heq Hf].
      exists (map snd index). split; [now symmetry|].
      now apply multi_indices_In.
Qed.

Lemma ndindex_enumerates_witness :
  let shape := [("x", 2); ("y", 3); ("z", 2)] in
  unique_keys shape
  /\ (forall k n, In (k, n) shape -> 0 <= n)
  /\ exists yielded,
       ndindex shape (AxisStr "z") = Some yielded
       /\ (In [("x", 1); ("y", 2)] yielded
           <-> within [("x", 1); ("y", 2)] [("x", 2); ("y", 3)]).
Proof.
  intros shape.
  assert (Hu : unique_keys shape) by solve_unique_keys.
  assert (Hsizes : forall k n, In (k, n) shape -> 0 <= n).
  { intros k n [Heq|[Heq|[Heq|[]]]]; injection Heq as _ <-; lia. }
  split; [exact Hu|]. split; [exact Hsizes|].
  destruct (ndindex_enumerates shape (AxisStr "z") Hu Hsizes)
    as (yielded & Hy & _ & Hiff).
  exists yielded. split; [exact Hy|]. exact (Hiff [("x", 1); ("y", 2)]).
Defined.

(** X7.  For a shape with unique axis names and sizes that are not
    negative, the number of indices that [ndindex] yields is the product
    of the sizes of the axes that are not ignored: one index when no
    axis is left, none when an axis that is left has size 0. *)
Theorem ndindex_count (shape : Shape) (axis_ignored : axis_arg) :
  unique_keys shape ->
  (forall k n, In (k, n) shape -> 0 <= n) ->
  exists yielded,
    ndindex shape axis_ignored = Some yielded
    /\ Z.of_nat (List.length yielded)
       = shape_size (axes_kept shape (axis_list axis_ignored))
    /\ (axes_kept shape (axis_list axis_ignored) = [] -> yielded = [[]])
    /\ ((exists k, In (k, 0) (axes_kept shape (axis_list axis_ignored))) ->
        yielded = []).
Proof.
  intros Hu Hsizes.
  destruct (ndindex_kept shape axis_ignored Hu Hsizes) as (_ & Hdims & Hnd).
  set (kept := axes_kept shape (axis_list axis_ignored)) in *.
  assert (Hlen : Z.of_nat (List.length
                   (map (combine (keys kept)) (multi_indices (map snd kept))))
                 = shape_size kept).
  { rewrite length_map. now apply multi_indices_length. }
  eexists. split; [exact Hnd|]. split; [exact Hlen|]. split.
  - intros Hnil. now rewrite Hnil.
  - intros [k Hk].
    assert (Hzero : shape_size kept = 0).
    { unfold shape_size. clear - Hk.
      induction kept as [|[k' n] kept IH]; [destruct Hk|].
      simpl. destruct Hk as [Heq|Hin].
      - injection Heq as _ ->. reflexivity.
      - rewrite (IH Hin). lia. }
    rewrite Hzero in Hlen.
    destruct (map (combine (keys kept)) (multi_indices (map snd kept)));
      [reflexivity | discriminate].
Qed.

Lemma ndindex_count_witness :
  let shape := [("x", 2); ("y", 3); ("z", 2)] in
  unique_keys shape
  /\ (forall k n, In (k, n) shape -> 0 <= n)
  /\ exists yielded,
       ndindex shape (AxisSeq ["z"; "t"]) = Some yielded
       /\ Z.of_nat (List.length yielded) = 6.
Proof.
  intros shape.
  assert (Hu : unique_keys shape) by solve_unique_keys.
  assert (Hsizes : forall k n, In (k, n) shape -> 0 <= n).
  { intros k n [Heq|[Heq|[Heq|[]]]]; injection Heq as _ <-; lia. }
  split; [exact Hu|]. split; [exact Hsizes|].
  destruct (ndindex_count shape (AxisSeq ["z"; "t"]) Hu Hsizes)
    as (yielded & Hy & Hlen & _).
  exists yielded. split; [exact Hy | exact Hlen].
Defined.

(* ================================================================== *)
(** * Type resolution, whatever the operands *)
(* ================================================================== *)

Section TypeArrayMoreFacts.
Context {Array : Type}.
Variable type_array_of : Array -> pyclass.

Local Abbreviation step := (type_array_step type_array_of).
Local Abbreviation priority := (priority type_array_of).

(** The state of the loop after the operands [l]: the running maximum
    bounds every priority met, and the class is the class of an operand
    that attains it, unless nothing exceeded the initial maximum. *)
Lemma type_array_loop_state (l : list (operand Array)) :
  forall cls priority_max,
    let final := fold_left step l (cls, priority_max) in
    (forall b, In (Named b) l -> priority b <= snd final)
    /\ (final = (cls, priority_max)
        \/ exists a, In (Named a) l
                     /\ final = (Some (type_array_of a), priority a)
                     /\ priority_max < priority a).
Proof.
  induction l as [|value l IH]; intros cls priority_max; simpl.
  - split; [intros b []|now left].
  - destruct value as [v|c]; simpl.
    + destruct (IH cls priority_max) as [Hbound Hfinal]. split.
      * intros b [Heq|Hin]; [discriminate | now apply Hbound].
      * destruct Hfinal as [Hsame|(a & Ha & Hfin & Hlt)]; [now left|].
        right. exists a. auto.
    + fold (priority c).
      destruct (Z.gtb_spec (priority c) priority_max) as [Hgt|Hle].
      * destruct (IH (Some (type_array_of c)) (priority c))
          as [Hbound Hfinal]. split.
        -- intros b [Heq|Hin]; [|now apply Hbound].
           injection Heq as <-.
           destruct Hfinal as [->|(a & _ & -> & Hlt)]; simpl; lia.
        -- right. destruct Hfinal as [Hsame|(a & Ha & Hfin & Hlt)].
           ++ exists c. split; [now left|]. split; [assumption | lia].
           ++ exists a. split; [now right|]. split; [assumption | lia].
      * destruct (IH cls priority_max) as [Hbound Hfinal]. split.
        -- intros b [Heq|Hin]; [|now apply Hbound].
           injection Heq as <-.
           destruct Hfinal as [->|(a & _ & -> & Hlt)]; simpl; lia.
        -- destruct Hfinal as [Hsame|(a & Ha & Hfin & Hlt)]; [now left|].
           right. exists a. auto.
Qed.

(** What [type_array] returns, read off the final state. *)
Lemma type_array_result (values : list (operand Array)) :
  (type_array type_array_of values = None
   /\ forall b, In (Named b) values -> priority b <= 0)
  \/ exists a, In (Named a) values
               /\ type_array type_array_of values = Some (type_array_of a)
               /\ 0 < priority a
               /\ forall b, In (Named b) values -> priority b <= priority a.
Proof.
  unfold type_array.
  destruct (type_array_loop_state values None 0) as [Hbound Hfinal].
  destruct Hfinal as [Hsame|(a & Ha & Hfin & Hlt)].
  - left. rewrite Hsame in *. split; [reflexivity | exact Hbound].
  - right. exists a. rewrite Hfin in *. auto.
Qed.
End TypeArrayMoreFacts.

(** X8.  Whatever the operands, [type_array] returns either the class of
    a named array among them whose priority is greater than 0 and is the
    highest of all the named arrays, or [None]; and it returns [None]
    exactly when no named array among the operands has a priority
    greater than 0. *)
Theorem type_array_sound
    (Array : Type) (type_array_of : Array -> pyclass)
    (values : list (operand Array)) :
  (forall cls, type_array type_array_of values = Some cls ->
     exists a, In (Named a) values
               /\ cls = type_array_of a
               /\ 0 < priority type_array_of a
               /\ forall b, In (Named b) values ->
                    priority type_array_of b <= priority type_array_of a)
  /\ (type_array type_array_of values = None
      <-> forall b, In (Named b) values -> priority type_array_of b <= 0).
Proof.
  destruct (type_array_result type_array_of values)
    as [[Hnone Hle]|(a & Ha & Hsome & Hpos & Hmax)].
  - split; [intros cls Hcls; congruence|]. split; auto.
  - split.
    + intros cls Hcls. exists a. rewrite Hsome in Hcls.
      injection Hcls as <-. auto.
    + split; [congruence|]. intros Hle. specialize (Hle a Ha). lia.
Qed.

(** X9.  The order of the operands matters to [type_array] only through
    ties: for two orders of the same operands the results are both
    [None], or classes of the same priority; and they are the same class
    when named arrays of equal priority have the same class. *)
Theorem type_array_order
    (Array : Type) (type_array_of : Array -> pyclass)
    (values values' : list (operand Array)) :
  Permutation values values' ->
  option_map __named_array_priority__ (type_array type_array_of values)
  = option_map __named_array_priority__ (type_array type_array_of values')
  /\ ((forall a b, In (Named a) values -> In (Named b) values ->
         priority type_array_of a = priority type_array_of b ->
         type_array_of a = type_array_of b) ->
      type_array type_array_of values = type_array type_array_of values').
Proof.
  intros Hperm.
  assert (Hin : forall v, In v values <-> In v values').
  { intros v. split; apply Permutation_in;
      [assumption | now apply Permutation_sym]. }
  destruct (type_array_result type_array_of values)
    as [[Hnone Hle]|(a & Ha & Hsome & Hpos & Hmax)];
    destruct (type_array_result type_array_of values')
      as [[Hnone' Hle']|(a' & Ha' & Hsome' & Hpos' & Hmax')].
  - rewrite Hnone, Hnone'. split; reflexivity.
  - apply Hin in Ha'. specialize (Hle a' Ha'). lia.
  - apply Hin in Ha. specialize (Hle' a Ha). lia.
  - assert (Heq : priority type_array_of a = priority type_array_of a').
    { apply Hin in Ha as Ha2. apply Hin in Ha' as Ha2'.
      specialize (Hmax a' Ha2'). specialize (Hmax' a Ha2). lia. }
    rewrite Hsome, Hsome'. simpl. split.
    + f_equal. exact Heq.
    + intros Hties. f_equal. apply Hties; try assumption. now apply Hin.
Qed.

Lemma type_array_order_witness :
  let scalar := {| __name__ := "ScalarArray";
                   __named_array_priority__ := 1 |} in
  let vector := {| __name__ := "Cartesian2dVectorArray";
                   __named_array_priority__ := 100 |} in
  let type_array_of := fun a : Z => if a <? 10 then scalar else vector in
  let values := [Named 1; Plain (PyInt 2); Named 10] in
  let values' := [Named 10; Named 1; Plain (PyInt 2)] in
  Permutation values values'
  /\ type_array type_array_of values = type_array type_array_of values'.
Proof.
  intros scalar vector type_array_of values values'.
  assert (Hperm : Permutation values values').
  { unfold values, values'.
    apply Permutation_trans with [Named 1; Named 10; Plain (PyInt 2)].
    - apply perm_skip. apply perm_swap.
    - apply perm_swap. }
  split; [exact Hperm|].
  apply (proj2 (type_array_order Z type_array_of values values' Hperm)).
  intros a b Ha Hb. unfold priority, type_array_of.
  destruct (a <? 10), (b <? 10); simpl; intros Heq;
    (reflexivity || discriminate).
Defined.

(* ================================================================== *)
(** * Indexing: which handlers are invoked *)
(* ================================================================== *)

Section IndexingMoreFacts.
Context {Array Value : Type} `{AbstractArray Array Value}.
Variables (self : Array) (it : item Array).

Local Abbreviation asked :=
  (map (fun c => Call_getitem_reversed c self it)).

(** The loop asks a prefix of the index arrays; each of them but the
    last declined, and an index array is skipped only after an answer. *)
Lemma getitem_reversed_loop_prefix (entries : dict (subitem Array)) :
  exists invoked skipped,
    reversed_handlers (ItemDict entries) = invoked ++ skipped
    /\ fst (getitem_reversed_loop self it entries) = asked invoked
    /\ (forall before c after,
          invoked = before ++ c :: after -> after <> [] ->
          _getitem_reversed c self it = NotImplemented)
    /\ (skipped <> [] ->
        exists before c,
          invoked = before ++ [c]
          /\ answer (_getitem_reversed c self it) <> None).
Proof.
  induction entries as [|[ax sub] entries IH].
  - exists [], []. simpl. repeat split.
    + intros before c after Heq. now destruct before.
    + intros Hne. now contradiction Hne.
  - destruct IH as (invoked & skipped & Hsplit & Hcalls & Hdecl & Hskip).
    assert (Hsingle : forall c : Array, forall before c' after,
              [c] = before ++ c' :: after -> after <> [] ->
              _getitem_reversed c' self it = NotImplemented).
    { intros c before c' after Heq Hafter.
      destruct before as [|b before]; simpl in Heq.
      - injection Heq as _ <-. now contradiction Hafter.
      - injection Heq as _ Heq. now destruct before. }
    destruct sub as [i|start stop step|c].
    + exists invoked, skipped. simpl. auto.
    + exists invoked, skipped. simpl. auto.
    + simpl reversed_handlers. simpl getitem_reversed_loop.
      simpl in Hsplit.
      destruct (_getitem_reversed c self it) as [|v|e] eqn:Hc; simpl answer.
      * exists (c :: invoked), skipped.
        destruct (getitem_reversed_loop self it entries) as [calls r].
        simpl in Hcalls. simpl. split; [now rewrite Hsplit|].
        split; [now rewrite Hcalls|]. split.
        -- intros before c' after Heq Hafter.
           destruct before as [|b before]; simpl in Heq;
             injection Heq as <- Heq; [assumption|].
           exact (Hdecl before c' after Heq Hafter).
        -- intros Hne. destruct (Hskip Hne) as (before & c' & -> & Hans).
           exists (c :: before), c'. auto.
      * exists [c], (flat_map (fun entry => match snd entry with
                                            | SubArray b => [b]
                                            | _ => []
                                            end) entries).
        simpl. split; [reflexivity|]. split; [reflexivity|].
        split; [apply Hsingle|]. intros _. exists [], c.
        split; [reflexivity|]. rewrite Hc. discriminate.
      * exists [c], (flat_map (fun entry => match snd entry with
                                            | SubArray b => [b]
                                            | _ => []
                                            end) entries).
        simpl. split; [reflexivity|]. split; [reflexivity|].
        split; [apply Hsingle|]. intros _. exists [], c.
        split; [reflexivity|]. rewrite Hc. discriminate.
Qed.
End IndexingMoreFacts.

(** X10.  Whatever the handlers answer, [a[item]] invokes [a._getitem]
    first and once, and then the reversed handlers of a prefix of the
    named arrays of the item, in item order and once each.  Every
    handler invoked before the last one declined; and a named array of
    the item is left out only after an answer, that of [a._getitem] or
    that of the reversed handler invoked last. *)
Theorem getitem_invocations
    (Array Value : Type) (HA : AbstractArray Array Value)
    (self : Array) (it : item Array) :
  exists invoked skipped,
    reversed_handlers it = invoked ++ skipped
    /\ fst (__getitem__ self it)
       = Call_getitem self it
         :: map (fun c => Call_getitem_reversed c self it) invoked
    /\ (answer (_getitem self it) <> None -> invoked = [])
    /\ (forall before c after,
          invoked = before ++ c :: after -> after <> [] ->
          _getitem_reversed c self it = NotImplemented)
    /\ (skipped <> [] ->
        answer (_getitem self it) <> None
        \/ exists before c,
             invoked = before ++ [c]
             /\ answer (_getitem_reversed c self it) <> None).
Proof.
  unfold __getitem__.
  destruct (answer (_getitem self it)) as [r|] eqn:Hself.
  - exists [], (reversed_handlers it). simpl.
    split; [reflexivity|]. split; [reflexivity|]. split; [reflexivity|].
    split; [|intros _; left; discriminate].
    intros before c after Heq. now destruct before.
  - destruct it as [d|b|].
    + destruct (getitem_reversed_loop_prefix self (ItemDict d) d)
        as (invoked & skipped & Hsplit & Hcalls & Hdecl & Hskip).
      exists invoked, skipped.
      destruct (getitem_reversed_loop self (ItemDict d) d) as [calls r].
      simpl in Hcalls. simpl fst.
      split; [assumption|]. split; [now rewrite Hcalls|].
      split; [intros Hne; now contradiction Hne|]. split; [assumption|].
      intros Hne. right. now apply Hskip.
    + exists [b], []. simpl.
      split; [reflexivity|]. split; [reflexivity|].
      split; [intros Hne; now contradiction Hne|]. split.
      * intros before c after Heq Hafter.
        destruct before as [|b' before]; simpl in Heq.
        -- injection Heq as _ <-. now contradiction Hafter.
        -- injection Heq as _ Heq. now destruct before.
      * intros Hne. now contradiction Hne.
    + exists [], []. simpl.
      split; [reflexivity|]. split; [reflexivity|].
      split; [reflexivity|]. split.
      * intros before c after Heq. now destruct before.
      * intros Hne. now contradiction Hne.
Qed.

(* ================================================================== *)
(** * Interpolation: errors, two axes, values between the samples *)
(* ================================================================== *)

(** X11.  The errors of [interp_linear].  An empty item raises the
    [ValueError] for an empty item, but only after [self[{}]] was read
    without an error; an error of [self[{ax: 0 for ax in item}]] is the
    error of the call; a coordinate that is not negative on an axis that
    the array does not have raises [KeyError] for that axis; and an error
    in reading the sample of the lower neighbour is the error of the
    call. *)
Theorem interp_linear_errors
    (Array Value X : Type) (HA : AbstractArray Array Value)
    (HC : Coordinate X) (HV : Arithmetic X Value) (A : Array) :
  (forall origin, getitem A (ItemDict []) = Ok origin ->
     interp_linear A ([] : dict X) = Raise (ValueError ItemEmpty))
  /\ (forall (item : dict X) e,
        getitem A (ItemDict (origin_item item)) = Raise e ->
        interp_linear A item = Raise e)
  /\ (forall axis (x : X) rest base,
        dict_get axis (shape_of A) = None -> lt_zero x = false ->
        _interp_linear_recursive A ((axis, x) :: rest) base
        = Raise (KeyError axis))
  /\ (forall axis (x : X) x0 base e,
        lower_neighbor A axis x = Ok x0 ->
        getitem A (ItemDict (dict_set axis (SubInt x0) base)) = Raise e ->
        _interp_linear_recursive A [(axis, x)] base = Raise e).
Proof.
  split; [|split; [|split]].
  - intros origin Horigin. unfold interp_linear. simpl origin_item.
    now rewrite Horigin.
  - intros item e He. unfold interp_linear. now rewrite He.
  - intros axis x rest base Hshape Hx. simpl.
    unfold lower_neighbor, shape_getitem. now rewrite Hx, Hshape.
  - intros axis x x0 base e Hx0 He. simpl. rewrite Hx0. simpl.
    now rewrite He.
Qed.

Lemma lower_neighbor_Q_axis
    (Array Value : Type) (HA : AbstractArray Array Value)
    (self : Array) (i : string) (n : Z) (x : Q) :
  dict_get i (shape_of self) = Some n -> 2 <= n ->
  exists x0 : Z,
    lower_neighbor self i x = Ok x0
    /\ 0 <= x0 <= n - 2
    /\ ((x < 0)%Q -> x0 = 0)
    /\ ((inject_Z (n - 1) <= x)%Q -> x0 = n - 2)
    /\ ((0 <= x)%Q -> (x < inject_Z (n - 1))%Q -> x0 = Qfloor x).
Proof.
  intros Hshape Hn. unfold lower_neighbor, shape_getitem. rewrite Hshape.
  assert (Hpos : (0 < inject_Z (n - 1))%Q).
  { change 0%Q with (inject_Z 0). rewrite <- Zlt_Qlt. lia. }
  destruct (lt_zero x) eqn:Hbelow.
  - apply lt_zero_Q in Hbelow. exists 0.
    split; [reflexivity|]. split; [lia|]. split; [reflexivity|]. split.
    + intros Hge. exfalso. apply (Qlt_irrefl 0).
      apply Qlt_le_trans with (inject_Z (n - 1)); [assumption|].
      apply Qle_trans with x; [assumption | now apply Qlt_le_weak].
    + intros Hnonneg _. exfalso. exact (Qlt_not_le _ _ Hbelow Hnonneg).
  - assert (Hnonneg : (0 <= x)%Q).
    { apply Qnot_lt_le. intros Hlt. apply lt_zero_Q in Hlt. congruence. }
    unfold bind. destruct (ge_int x (n - 1)) eqn:Habove.
    + apply ge_int_Q in Habove. exists (n - 2).
      split; [reflexivity|]. split; [lia|]. split; [|split].
      * intros Hneg. exfalso. exact (Qlt_not_le _ _ Hneg Hnonneg).
      * reflexivity.
      * intros _ Hlt. exfalso. exact (Qlt_not_le _ _ Hlt Habove).
    + assert (Hlt : (x < inject_Z (n - 1))%Q).
      { apply Qnot_le_lt. intros Hge. apply ge_int_Q in Hge. congruence. }
      pose proof (Qfloor_bounds x (n - 1) Hnonneg Hlt) as Hfloor.
      exists (Qfloor x). rewrite (int_of_Q_floor x Hnonneg).
      split; [reflexivity|]. split; [lia|]. split; [|split].
      * intros Hneg. exfalso. exact (Qlt_not_le _ _ Hneg Hnonneg).
      * intros Hge. exfalso. exact (Qlt_not_le _ _ Hlt Hge).
      * reflexivity.
Qed.

Section TwoAxes.
Context {Array Value X : Type}
        `{AbstractArray Array Value} `{Coordinate X} `{Arithmetic X Value}.

(** Two axes [i] and [j], in the order of the item: four samples are
    read, interpolated along [j] and then along [i]. *)
Lemma interp_linear_two_axes_eval (A : Array) (i j : string)
    (y : Z -> Z -> Value) (x z : X) (x0 z0 : Z) :
  i <> j ->
  getitem A (ItemDict [(i, SubInt 0); (j, SubInt 0)]) = Ok (y 0 0) ->
  value_shape (y 0 0) = [] ->
  lower_neighbor A i x = Ok x0 ->
  lower_neighbor A j z = Ok z0 ->
  (forall a b, a = x0 \/ a = x0 + 1 -> b = z0 \/ b = z0 + 1 ->
     getitem A (ItemDict [(i, SubInt a); (j, SubInt b)]) = Ok (y a b)) ->
  interp_linear A [(i, x); (j, z)]
  = Ok (lerp (lerp (y x0 z0) (sub_int z z0) (y x0 (z0 + 1)))
             (sub_int x x0)
             (lerp (y (x0 + 1) z0) (sub_int z z0) (y (x0 + 1) (z0 + 1)))).
Proof.
  intros Hij Horigin Hscalar Hx0 Hz0 Hget.
  assert (Hji : String.eqb j i = false).
  { apply String.eqb_neq. congruence. }
  unfold interp_linear, origin_item. simpl map at 1.
  rewrite Horigin. simpl bind. rewrite Hscalar. simpl.
  rewrite Hx0. simpl. rewrite Hz0. simpl. rewrite Hji.
  rewrite !Hget by auto. reflexivity.
Qed.
End TwoAxes.

(** X12.  Interpolation over two axes [i] and [j] of sizes [n >= 2] and
    [m >= 2], at fractional coordinates [x] and [z]: each coordinate is
    clamped to its lower neighbour as on a single axis, the four samples
    at the neighbours are read within bounds, and the result is the
    bilinear combination: the two interpolations along [j], at the rows
    [x0] and [x0 + 1], interpolated along [i]. *)
Theorem interp_linear_two_axes
    (Array Value : Type) (HA : AbstractArray Array Value)
    (HV : Arithmetic Q Value)
    (A : Array) (i j : string) (n m : Z) (y : Z -> Z -> Value) (x z : Q) :
  i <> j ->
  dict_get i (shape_of A) = Some n -> dict_get j (shape_of A) = Some m ->
  2 <= n -> 2 <= m ->
  (forall a b, 0 <= a < n -> 0 <= b < m ->
     getitem A (ItemDict [(i, SubInt a); (j, SubInt b)]) = Ok (y a b)) ->
  value_shape (y 0 0) = [] ->
  exists x0 z0 : Z,
    lower_neighbor A i x = Ok x0 /\ lower_neighbor A j z = Ok z0
    /\ 0 <= x0 <= n - 2 /\ 0 <= z0 <= m - 2
    /\ interp_linear A [(i, x); (j, z)]
       = Ok (lerp (lerp (y x0 z0) (z - inject_Z z0)%Q (y x0 (z0 + 1)))
                  (x - inject_Z x0)%Q
                  (lerp (y (x0 + 1) z0) (z - inject_Z z0)%Q
                        (y (x0 + 1) (z0 + 1)))).
Proof.
  intros Hij Hn Hm Hn2 Hm2 Hget Hscalar.
  destruct (lower_neighbor_Q_axis Array Value HA A i n x Hn Hn2)
    as (x0 & Hx0 & Hxr & _).
  destruct (lower_neighbor_Q_axis Array Value HA A j m z Hm Hm2)
    as (z0 & Hz0 & Hzr & _).
  exists x0, z0. repeat (split; [assumption || lia|]).
  change (x - inject_Z x0)%Q with (sub_int x x0).
  change (z - inject_Z z0)%Q with (sub_int z z0).
  apply interp_linear_two_axes_eval; try assumption.
  - apply Hget; lia.
  - intros a b Ha Hb. apply Hget; lia.
Qed.

Lemma array2_getitem_in_bounds (V : Type) (axis0 axis1 : string)
    (rows : list (list V)) (default : V) (a b : Z) :
  axis0 <> axis1 ->
  0 <= a < Z.of_nat (List.length rows) ->
  0 <= b < Z.of_nat (List.length (nth (Z.to_nat a) rows [])) ->
  getitem (Explicit2 axis0 axis1 rows)
          (ItemDict [(axis0, SubInt a); (axis1, SubInt b)])
  = Ok (nth (Z.to_nat b) (nth (Z.to_nat a) rows []) default).
Proof.
  intros Hne Ha Hb. unfold getitem, __getitem__. simpl.
  rewrite !String.eqb_refl.
  destruct (String.eqb_spec axis1 axis0) as [Heq|_]; [congruence|].
  assert (Hindex : forall (T : Type) (l : list T) (d : T) (k : Z),
            0 <= k < Z.of_nat (List.length l) ->
            ndarray_getitem l k = Returned (nth (Z.to_nat k) l d)).
  { intros T l d k Hk. unfold ndarray_getitem.
    destruct (Z.ltb_spec k 0) as [|_]; [lia|].
    destruct (Z.leb_spec 0 k) as [_|]; [|lia].
    destruct (Z.ltb_spec k (Z.of_nat (List.length l))) as [_|]; [|lia].
    simpl. now rewrite (nth_error_nth' l d) by lia. }
  rewrite (Hindex _ rows [] a Ha). rewrite (Hindex _ _ default b Hb).
  reflexivity.
Qed.

Lemma interp_linear_two_axes_witness :
  let A := Explicit2 "i" "j"
             [[0 # 1; 10 # 1; 20 # 1]; [100 # 1; 110 # 1; 120 # 1]]%Q in
  exists x0 z0 : Z,
    lower_neighbor A "i" (1 # 2)%Q = Ok x0
    /\ lower_neighbor A "j" (3 # 2)%Q = Ok z0
    /\ exists r, interp_linear A [("i", (1 # 2)%Q); ("j", (3 # 2)%Q)] = Ok r
                 /\ (r == 65 # 1)%Q.
Proof.
  intros A.
  destruct (interp_linear_two_axes (array2 Q) Q _ _ A "i" "j" 2 3
              (fun a b => nth (Z.to_nat b)
                            (nth (Z.to_nat a)
                               [[0 # 1; 10 # 1; 20 # 1];
                                [100 # 1; 110 # 1; 120 # 1]]%Q []) 0%Q)
              (1 # 2)%Q (3 # 2)%Q)
    as (x0 & z0 & Hx0 & Hz0 & _ & _ & Hinterp).
  - discriminate.
  - reflexivity.
  - reflexivity.
  - lia.
  - lia.
  - intros a b Ha Hb. apply array2_getitem_in_bounds; [discriminate|simpl; lia|].
    assert (Hcases : a = 0 \/ a = 1) by lia.
    destruct Hcases as [-> | ->]; simpl; lia.
  - reflexivity.
  - exists x0, z0. split; [exact Hx0|]. split; [exact Hz0|].
    assert (Hx : x0 = 0) by (vm_compute in Hx0; congruence).
    assert (Hz : z0 = 1) by (vm_compute in Hz0; congruence).
    subst x0 z0. eexists. split; [exact Hinterp|]. vm_compute. reflexivity.
Defined.

(** X13.  On an axis [i] of size [n >= 2] with rational samples, the
    value interpolated at a coordinate inside the grid,
    [0 <= x <= n - 1], lies between the two samples at the neighbours of
    [x]: interpolation inside the grid never leaves the range of the
    neighbouring samples. *)
Theorem interp_linear_between
    (Array : Type) (HA : AbstractArray Array Q)
    (A : Array) (i : string) (n : Z) (y : Z -> Q) (x : Q) :
  shape_of A = [(i, n)] ->
  2 <= n ->
  (forall j, 0 <= j < n -> getitem A (ItemDict [(i, SubInt j)]) = Ok (y j)) ->
  value_shape (y 0) = [] ->
  (0 <= x)%Q -> (x <= inject_Z (n - 1))%Q ->
  exists (x0 : Z) (r : Q),
    lower_neighbor A i x = Ok x0
    /\ interp_linear A [(i, x)] = Ok r
    /\ (inject_Z x0 <= x <= inject_Z (x0 + 1)%Z)%Q
    /\ ((y x0 <= y (x0 + 1)%Z)%Q -> (y x0 <= r <= y (x0 + 1)%Z)%Q)
    /\ ((y (x0 + 1)%Z <= y x0)%Q -> (y (x0 + 1)%Z <= r <= y x0)%Q).
Proof.
  intros Hshape Hn Hget Hscalar Hlo Hhi.
  destruct (lower_neighbor_Q Array Q HA A i n x Hshape Hn)
    as (x0 & Hx0 & _ & _ & Habove & Hinside & Hrange).
  assert (Hinterp : interp_linear A [(i, x)]
                    = Ok (y x0 + (x - inject_Z x0) * (y (x0 + 1)%Z - y x0))%Q).
  { exact (interp_linear_one_axis A i y x x0
             (Hget 0 ltac:(lia)) Hscalar Hx0
             (Hget x0 ltac:(lia)) (Hget (x0 + 1) ltac:(lia))). }
  assert (Hweight : (inject_Z x0 <= x <= inject_Z (x0 + 1)%Z)%Q).
  { destruct (Qlt_le_dec x (inject_Z (n - 1))) as [Hlt|Hge].
    - rewrite (Hinside Hlo Hlt). split; [apply Qfloor_le|].
      apply Qlt_le_weak, Qlt_floor.
    - rewrite (Habove Hge). replace (n - 2 + 1) with (n - 1) by lia.
      split; [|assumption].
      apply Qle_trans with (inject_Z (n - 1)); [|assumption].
      rewrite <- Zle_Qle. lia. }
  exists x0. eexists. split; [exact Hx0|]. split; [exact Hinterp|].
  split; [exact Hweight|].
  rewrite inject_Z_plus in Hweight. change (inject_Z 1) with 1%Q in Hweight.
  destruct Hweight as [Hw0 Hw1].
  split; intros Horder; split; nra.
Qed.

Lemma interp_linear_between_witness :
  let A := Explicit "i" [10 # 1; 20 # 1; 40 # 1]%Q in
  exists r : Q,
    interp_linear A [("i", (3 # 2)%Q)] = Ok r
    /\ (20 # 1 <= r <= 40 # 1)%Q.
Proof.
  intros A.
  destruct (interp_linear_between (array1 Q) _ A "i" 3
              (fun j => nth (Z.to_nat j) [10 # 1; 20 # 1; 40 # 1]%Q 0%Q)
              (3 # 2)%Q)
    as (x0 & r & Hx0 & Hinterp & _ & Hup & _).
  - reflexivity.
  - lia.
  - intros j Hj. apply array1_getitem_in_bounds. simpl. lia.
  - reflexivity.
  - discriminate.
  - discriminate.
  - assert (Hx : x0 = 1) by (vm_compute in Hx0; congruence).
    subst x0. exists r. split; [exact Hinterp|].
    apply Hup. discriminate.
Defined.

(* ================================================================== *)
(** * [random_uniform]: when the ambient generators are used *)
(* ================================================================== *)

(** X14.  [random_uniform] draws from the ambient generators only when it
    returns an array: whenever it returns [None] or [NotImplemented], or
    raises, the ambient state is as before.  A [start] that is [None]
    gives [None], and a [start] that is a named array of another kind
    gives [NotImplemented], whatever [stop] is; and shapes of [start],
    [stop] and [shape_random] that cannot be broadcast raise the
    [ValueError] that carries these three shapes. *)
Theorem random_uniform_draws_only_for_an_array
    (Ambient Raw Buffer Unit Generator ScalarArray OtherArray : Type)
    (np_random_uniform : Buffer -> Buffer -> list Z -> Ambient -> Buffer * Ambient)
    (default_rng : Z -> Generator)
    (generator_uniform : Generator -> Buffer -> Buffer -> list Z -> Buffer)
    (scalar_array : Raw -> ScalarArray)
    (scalar_shape : ScalarArray -> Shape)
    (ndarray_aligned : ScalarArray -> Shape -> res Buffer)
    (common_unit : Buffer -> Buffer -> res (Buffer * Buffer * option Unit))
    (scalar_array_of_buffer : Buffer -> option Unit -> list string -> ScalarArray)
    (start stop : bound Raw ScalarArray OtherArray)
    (shape_random : option Shape) (seed : option Z) (g : Ambient) :
  let result := random_uniform np_random_uniform default_rng
                  generator_uniform scalar_array scalar_shape
                  ndarray_aligned common_unit scalar_array_of_buffer
                  start stop shape_random seed g in
  ((forall a, fst result <> Ok (@SampleArray ScalarArray a)) ->
   snd result = g)
  /\ (start = @BoundNone Raw ScalarArray OtherArray ->
      result = (Ok (@SampleNone ScalarArray), g))
  /\ (forall a, start = @BoundOther Raw ScalarArray OtherArray a ->
        result = (Ok (@SampleNotImplemented ScalarArray), g))
  /\ (forall s t e,
        normalize_bound scalar_array start = inl s ->
        normalize_bound scalar_array stop = inl t ->
        let shapes := [scalar_shape s; scalar_shape t;
                       match shape_random with Some r => r | None => [] end] in
        broadcast_shapes shapes = Raise e ->
        result = (Raise (ValueError (ShapesNotCompatible shapes)), g)).
Proof.
  intros result. subst result. unfold random_uniform.
  split; [|split; [|split]].
  - destruct (normalize_bound scalar_array start) as [s|out];
      [|intros _; reflexivity].
    destruct (normalize_bound scalar_array stop) as [t|out];
      [|intros _; reflexivity].
    match goal with
    | |- context [match ?r with Ok _ => _ | Raise _ => _ end] => destruct r
    end; [|intros _; reflexivity].
    destruct a as [shape [[low high] unit]].
    destruct seed as [seed|]; [intros _; reflexivity|].
    destruct (np_random_uniform low high (map snd shape) g) as [value g'].
    simpl. intros Hnot. exfalso. exact (Hnot _ eq_refl).
  - intros ->. reflexivity.
  - intros a ->. reflexivity.
  - intros s t e Hs Ht He. rewrite Hs, Ht, He. simpl.
    now rewrite (broadcast_shapes_raises _ _ He).
Qed.

(* ================================================================== *)
(** * [flatten_axes] *)
(* ================================================================== *)

Lemma append_star_free (a : string) : forall b s1 s2,
  star_free a = true -> star_free b = true ->
  at_separator s1 -> at_separator s2 ->
  String.append a s1 = String.append b s2 -> a = b /\ s1 = s2.
Proof.
  induction a as [|c a IH]; intros b s1 s2 Ha Hb Hs1 Hs2 Heq.
  - destruct b as [|c' b]; [now split|]. exfalso.
    simpl in Heq, Hb. apply andb_prop in Hb as [Hc' _].
    destruct Hs1 as [->|[t ->]]; [discriminate|].
    simpl in Heq. injection Heq as <- _. discriminate.
  - destruct b as [|c' b].
    + exfalso. simpl in Heq, Ha. apply andb_prop in Ha as [Hc _].
      destruct Hs2 as [->|[t ->]]; [discriminate|].
      simpl in Heq. injection Heq as -> _. discriminate.
    + simpl in Heq, Ha, Hb. injection Heq as <- Heq.
      apply andb_prop in Ha as [_ Ha]. apply andb_prop in Hb as [_ Hb].
      destruct (IH b s1 s2 Ha Hb Hs1 Hs2 Heq) as [-> ->]. now split.
Qed.

Lemma flatten_axes_cons (axis : string) (axes : list string) :
  exists rest,
    flatten_axes (axis :: axes) = String.append axis rest
    /\ at_separator rest
    /\ (axes = [] -> rest = "")
    /\ (axes <> [] -> rest = String.append "*" (flatten_axes axes)).
Proof.
  unfold flatten_axes. destruct axes as [|axis' axes].
  - exists "". simpl. split; [|split; [now left|split; [reflexivity|]]].
    + induction axis as [|c axis IH]; simpl; [reflexivity | now rewrite <- IH].
    + intros Hne. now contradiction Hne.
  - exists (String.append "*" (String.concat "*" (axis' :: axes))).
    split; [reflexivity|]. split; [right; eauto|].
    split; [discriminate | reflexivity].
Qed.

(** X15.  [flatten_axes] is injective on lists of axis names that are
    not empty and contain no ['*']: two different lists of such axes
    never flatten to the same name.  With a ['*'] in a name it is not:
    the single axis ["a*b"] and the two axes ["a"] and ["b"] flatten to
    the same name. *)
Theorem flatten_axes_injective (axes axes' : list string) :
  (forall a, In a axes -> star_free a = true /\ a <> "") ->
  (forall a, In a axes' -> star_free a = true /\ a <> "") ->
  flatten_axes axes = flatten_axes axes' ->
  axes = axes'
  /\ flatten_axes ["a*b"] = flatten_axes ["a"; "b"].
Proof.
  intros Haxes Haxes' Heq. split; [|reflexivity].
  assert (Hempty : forall axis rest, String.append axis rest = "" -> axis = "").
  { intros axis rest. destruct axis; [reflexivity | discriminate]. }
  revert axes' Haxes Haxes' Heq.
  induction axes as [|a axes IH]; intros [|b axes'] Haxes Haxes' Heq.
  - reflexivity.
  - exfalso. destruct (flatten_axes_cons b axes') as (rest & Hb & _).
    rewrite Hb in Heq. symmetry in Heq. apply Hempty in Heq.
    now apply (proj2 (Haxes' b (or_introl eq_refl))).
  - exfalso. destruct (flatten_axes_cons a axes) as (rest & Ha & _).
    rewrite Ha in Heq. apply Hempty in Heq.
    now apply (proj2 (Haxes a (or_introl eq_refl))).
  - destruct (flatten_axes_cons a axes) as (rest & Ha & Hsep & Hnil & Hcons).
    destruct (flatten_axes_cons b axes')
      as (rest' & Hb & Hsep' & Hnil' & Hcons').
    rewrite Ha, Hb in Heq.
    destruct (append_star_free a b rest rest'
                (proj1 (Haxes a (or_introl eq_refl)))
                (proj1 (Haxes' b (or_introl eq_refl))) Hsep Hsep' Heq)
      as [<- Hrest].
    f_equal.
    destruct axes as [|a' axes]; destruct axes' as [|b' axes'].
    + reflexivity.
    + exfalso. rewrite (Hnil eq_refl) in Hrest.
      rewrite Hcons' in Hrest by discriminate. discriminate.
    + exfalso. rewrite (Hnil' eq_refl) in Hrest.
      rewrite Hcons in Hrest by discriminate. discriminate.
    + rewrite Hcons, Hcons' in Hrest by discriminate.
      injection Hrest as Hrest. apply IH; [| |assumption].
      * intros x Hx. apply Haxes. now right.
      * intros x Hx. apply Haxes'. now right.
Qed.

Lemma flatten_axes_injective_witness :
  let axes := ["time"; "wavelength"] in
  (forall a, In a axes -> star_free a = true /\ a <> "")
  /\ flatten_axes axes = "time*wavelength"
  /\ (flatten_axes axes = flatten_axes axes -> axes = axes).
Proof.
  intros axes.
  assert (Haxes : forall a, In a axes -> star_free a = true /\ a <> "").
  { intros a [<-|[<-|[]]]; split; (reflexivity || discriminate). }
  split; [exact Haxes|]. split; [reflexivity|].
  intros Heq. exact (proj1 (flatten_axes_injective axes axes Haxes Haxes Heq)).
Defined.

(* ================================================================== *)
(** * Symmetric ranges *)
(* ================================================================== *)

(** X16.  For a symmetric range with integer or exact fractional
    [center] and [width], [range] is twice the width and [start] plus
    [range] is [stop], whatever the center.  In binary64 the center can
    absorb the width: for [center = 1e17] and [width = 1.0] both ends
    are [1e17] and [range] is [0.0], not [2.0]. *)
Theorem symmetric_range_twice_width :
  (forall center width : Z,
      symmetric_range (arithmetic := Arithmetic_Z) center width = 2 * width
      /\ symmetric_start (arithmetic := Arithmetic_Z) center width
         + symmetric_range (arithmetic := Arithmetic_Z) center width
         = symmetric_stop (arithmetic := Arithmetic_Z) center width)
  /\ (forall center width : Q,
         (symmetric_range (arithmetic := Arithmetic_Q) center width
          == 2 * width)%Q
         /\ (symmetric_start (arithmetic := Arithmetic_Q) center width
             + symmetric_range (arithmetic := Arithmetic_Q) center width
             == symmetric_stop (arithmetic := Arithmetic_Q) center width)%Q)
  /\ symmetric_start (arithmetic := Arithmetic_float) 1e17%float 1%float
     = 1e17%float
  /\ symmetric_stop (arithmetic := Arithmetic_float) 1e17%float 1%float
     = 1e17%float
  /\ symmetric_range (arithmetic := Arithmetic_float) 1e17%float 1%float
     = 0%float.
Proof.
  split; [|split].
  - intros center width.
    unfold symmetric_range, range, symmetric_start, symmetric_stop.
    unfold v_add, v_sub, Arithmetic_Z. lia.
  - intros center width.
    unfold symmetric_range, range, symmetric_start, symmetric_stop.
    unfold v_add, v_sub, Arithmetic_Q. split; ring.
  - repeat split; vm_compute; reflexivity.
Qed.
